(** * QuizBuilder: a shallow embedding of [src/components/QuizBuilder.tsx]

    The component holds its state in React hooks and reacts to user events.
    Every handler is embedded as a function from the state before the event
    (and whatever the outside world answers: the file reader, pdf.js, the
    chat-completion endpoint, [JSON.parse], [Date.now], [Math.random]) to the
    state after it.  Handlers are taken to run one after the other: a handler
    sees the state of the last render and no second event is interleaved
    while it awaits.

    JavaScript values are untyped at run time, so the question list is a list
    of [value]s: what [JSON.parse] hands back is never checked against the
    TypeScript interfaces. *)

From Stdlib Require Import ZArith QArith String Ascii List Lia.
From stdpp Require Import base option list strings pretty gmap.

Set Warnings "-register-all".

Local Open Scope string_scope.
Local Open Scope list_scope.
Local Open Scope Z_scope.

(** ** JavaScript values *)

Module JS.

(** The values that can reach the component: [undefined], and what
    [JSON.parse] builds.  An object is its list of own properties in
    insertion order.  Numbers are the finite ones.  A string is a sequence
    of code units; Rocq's strings hold the code units below 256, so the
    embedding covers the strings over Latin-1. *)
Inductive value : Type :=
| VUndefined
| VNull
| VBool (b : bool)
| VNum (q : Q)
| VStr (s : string)
| VArr (items : list value)
| VObj (props : list (string * value)).

(** The outcome of code that may throw (or of a promise that may reject):
    the value, or the thrown error's message. *)
Inductive result (A : Type) : Type :=
| Ok (a : A)
| Throw (msg : string).
Arguments Ok {A} a.
Arguments Throw {A} msg.

(** What a handler does besides changing state. *)
Inductive Effect : Type :=
| ConsoleLog
| ConsoleWarn (msg : string)
| ConsoleError (msg : string)
| Alert (msg : string).

(** A computation: the effects it performed, in order, and its outcome. *)
Definition M (A : Type) : Type := list Effect * result A.

Definition ret {A} (a : A) : M A := ([], Ok a).
Definition throw {A} (msg : string) : M A := ([], Throw msg).
Definition emit (e : Effect) : M unit := ([e], Ok tt).
Definition lift {A} (r : result A) : M A := ([], r).

Definition bind {A B} (m : M A) (k : A -> M B) : M B :=
  match m with
  | (log, Ok a) => let '(log', r) := k a in (log ++ log', r)
  | (log, Throw e) => (log, Throw e)
  end.

(** [try { body } catch (err) { handler err }] *)
Definition try_catch {A} (body : M A) (handler : string -> M A) : M A :=
  match body with
  | (log, Ok a) => (log, Ok a)
  | (log, Throw e) => let '(log', r) := handler e in (log ++ log', r)
  end.

Notation "'do' x <- m ; k" := (bind m (fun x => k))
  (at level 10, x name, m at level 100, k at level 200).
Notation "'exec' m ; k" := (bind m (fun _ => k))
  (at level 10, m at level 100, k at level 200).

(** [!v] is [negb (truthy v)]. *)
Definition truthy (v : value) : bool :=
  match v with
  | VUndefined | VNull => false
  | VBool b => b
  | VNum q => negb (Qnum q =? 0)%Z
  | VStr s => negb (String.eqb s "")
  | VArr _ | VObj _ => true
  end.

Definition isArray (v : value) : bool :=
  match v with
  | VArr _ => true
  | _ => false
  end.

Fixpoint lookup_prop (k : string) (props : list (string * value)) : option value :=
  match props with
  | [] => None
  | (k', v) :: rest => if String.eqb k k' then Some v else lookup_prop k rest
  end.

(** [obj[k] = v] on an object's property list: an existing key keeps its
    place, a new one goes last. *)
Fixpoint assign_prop (k : string) (v : value) (props : list (string * value))
  : list (string * value) :=
  match props with
  | [] => [(k, v)]
  | (k', v') :: rest =>
      if String.eqb k k' then (k, v) :: rest else (k', v') :: assign_prop k v rest
  end.

Definition type_error : string := "TypeError".

(** [v.k] for a key [k] that is not an index or [length]: reading a property
    of [undefined] or [null] throws, a primitive or an array has no such own
    property. *)
Definition get (v : value) (k : string) : result value :=
  match v with
  | VUndefined | VNull => Throw type_error
  | VObj props => Ok (default VUndefined (lookup_prop k props))
  | _ => Ok VUndefined
  end.

Fixpoint chars (s : string) : list string :=
  match s with
  | EmptyString => []
  | String c s' => String c EmptyString :: chars s'
  end.

(** The own enumerable properties that [{...v}] copies. *)
Definition spread (v : value) : list (string * value) :=
  match v with
  | VObj props => props
  | VArr items => imap (fun i x => (pretty i, x)) items
  | VStr s => imap (fun i c => (pretty i, VStr c)) (chars s)
  | _ => []
  end.

(** *** [Array.prototype.splice] *)

(** [arr.splice(start, deleteCount, ...items)]: the removed elements and the
    array afterwards.  A negative [start] counts from the end; both
    arguments are clamped to the array. *)
Definition splice (arr : list value) (start deleteCount : Z) (items : list value)
  : list value * list value :=
  let len := Z.of_nat (length arr) in
  let actualStart := if start <? 0 then Z.max (len + start) 0 else Z.min start len in
  let actualDeleteCount := Z.min (Z.max deleteCount 0) (len - actualStart) in
  let a := Z.to_nat actualStart in
  let d := Z.to_nat actualDeleteCount in
  (take d (drop a arr), take a arr ++ items ++ drop (a + d) arr).

(** [const [x] = arr] *)
Definition first_of (arr : list value) : value := default VUndefined (head arr).

(** *** Strings *)

Module Text.

Definition newline : string := String "010"%char EmptyString.

(** White space and line terminators, as [trim] and [parseInt] strip
    them: tab, line feed, vertical tab, form feed, carriage return,
    space, no-break space. *)
Definition is_white (c : ascii) : bool :=
  match c with
  | "009" | "010" | "011" | "012" | "013" | " " | "160" => true
  | _ => false
  end%char.

Fixpoint trimStart (s : string) : string :=
  match s with
  | EmptyString => EmptyString
  | String c s' => if is_white c then trimStart s' else s
  end.

Fixpoint trimEnd (s : string) : string :=
  match s with
  | EmptyString => EmptyString
  | String c s' =>
      match trimEnd s' with
      | EmptyString => if is_white c then EmptyString else String c EmptyString
      | t => String c t
      end
  end.

Definition trim (s : string) : string := trimEnd (trimStart s).

(** [s.substr(start, length)] for non-negative arguments. *)
Definition substr (s : string) (start len : nat) : string :=
  String.substring start len s.

(** [s] with its first [n] code units dropped. *)
Fixpoint skip (n : nat) (s : string) : string :=
  match n, s with
  | O, _ => s
  | S _, EmptyString => EmptyString
  | S n', String _ s' => skip n' s'
  end.

(** The first occurrence of [needle] in [hay]: what stands before it and
    what stands after it. *)
Fixpoint search (needle hay : string) : option (string * string) :=
  if String.prefix needle hay then Some (EmptyString, skip (String.length needle) hay)
  else
    match hay with
    | EmptyString => None
    | String c hay' =>
        match search needle hay' with
        | Some (before, after) => Some (String c before, after)
        | None => None
        end
    end.

(** *** [parseInt(s, 10)] *)

Fixpoint leading_digits (s : string) : list nat :=
  match s with
  | EmptyString => []
  | String c s' =>
      match Ascii.is_nat c with
      | Some d => d :: leading_digits s'
      | None => []
      end
  end.

Definition digits_value (ds : list nat) : Z :=
  fold_left (fun acc d => 10 * acc + Z.of_nat d) ds 0.

(** *** Numbers *)

(** The numbers [parseInt] returns: [NaN], the finite doubles of integer
    value (a negative zero is read as [Finite 0]: both are falsy), and the
    two infinities. *)
Inductive number : Type :=
| NaN
| Infinity (negative : bool)
| Finite (z : Z).

(** [!x] is [negb (truthy_number x)]. *)
Definition truthy_number (x : number) : bool :=
  match x with
  | NaN => false
  | Infinity _ => true
  | Finite z => negb (z =? 0)
  end.

(** The Number value for an integer: the nearest double, ties to the even
    mantissa, infinite from [2^1024] on.  Below [2^53] every integer is a
    double; above, [e] bits are dropped to keep a mantissa of 53. *)
Definition round_to_double (n : Z) : number :=
  let a := Z.abs n in
  if a <? 2 ^ 53 then Finite n
  else
    let e := Z.log2 a - 52 in
    let q := a / 2 ^ e in
    let r := a mod 2 ^ e in
    let half := 2 ^ (e - 1) in
    let m := if (half <? r) || ((r =? half) && Z.odd q) then q + 1 else q in
    let v := m * 2 ^ e in
    if 2 ^ 1024 <=? v then Infinity (n <? 0) else Finite (Z.sgn n * v).

(** What ECMAScript lets an engine do to a decimal numeral of more than 20
    significant digits: replace every digit after the 20th by 0. *)
Fixpoint zero_past_20 (fuel : nat) (n : Z) : Z :=
  if n <? 10 ^ 20 then n
  else
    match fuel with
    | O => n
    | S fuel' => 10 * zero_past_20 fuel' (n / 10)
    end.

(** Leading white space is skipped, then an optional sign is read, then the
    longest run of decimal digits. *)
Definition sign_and_digits (s : string) : Z * list nat :=
  let s := trimStart s in
  let '(sign, s) :=
    match s with
    | String "-"%char r => (-1, r)
    | String "+"%char r => (1, r)
    | _ => (1, s)
    end in
  (sign, leading_digits s).

(** [parseInt(s, 10)].  Without digit the result is [NaN]; otherwise it is
    the Number value for the signed integer the digits denote.
    [approximates] says whether the engine uses the licence of
    [zero_past_20]. *)
Definition parseInt (approximates : bool) (s : string) : number :=
  let '(sign, ds) := sign_and_digits s in
  match ds with
  | [] => NaN
  | _ =>
      let mathInt := digits_value ds in
      let mathInt :=
        if approximates then zero_past_20 (length ds) mathInt else mathInt in
      round_to_double (sign * mathInt)
  end.

End Text.

(** [v[i]] *)
Definition get_index (v : value) (i : nat) : result value :=
  match v with
  | VUndefined | VNull => Throw type_error
  | VArr items => Ok (default VUndefined (items !! i))
  | VObj props => Ok (default VUndefined (lookup_prop (pretty i) props))
  | VStr s => Ok (default VUndefined (VStr <$> chars s !! i))
  | _ => Ok VUndefined
  end.

(** [v.map((x, index) => f x index)]: only an array has the method. *)
Definition array_map (v : value) (f : value -> nat -> value) : result value :=
  match v with
  | VArr items => Ok (VArr (imap (fun index x => f x index) items))
  | _ => Throw type_error
  end.

(** [v.k = x] where [v] is an object; the component assigns to nothing
    else. *)
Definition set (v : value) (k : string) (x : value) : result value :=
  match v with
  | VObj props => Ok (VObj (assign_prop k x props))
  | _ => Throw type_error
  end.

(** The elements of an array value. *)
Definition array_elements (v : value) : list value :=
  match v with
  | VArr items => items
  | _ => []
  end.

(** [v === s] for a string [s] *)
Definition is_string (v : value) (s : string) : bool :=
  match v with
  | VStr s' => String.eqb s' s
  | _ => false
  end.

End JS.
Import JS JS.Text.

(** ** The data model *)

Inductive Difficulty := facile | moyen | difficile.

Record QuizParams := {
  difficulty : Difficulty;
  questionCount : number
}.

(** ** [reorder] *)

(** [Array.from(list)] copies; on lists, values are already copies. *)
Definition reorder (list : list value) (startIndex endIndex : Z) : Datatypes.list value :=
  let result := list in
  let '(removedArr, result) := splice result startIndex 1 [] in
  let removed := first_of removedArr in
  let '(_, result) := splice result endIndex 0 [removed] in
  result.

(** ** [parsePdf] *)

(** What pdf.js hands out.  Each promise of the library either resolves or
    rejects with an error. *)
Record TextItem := { str : string }.
Record TextContent := { items : list TextItem }.
Record PDFPage := { getTextContent : result TextContent }.
Record PDFDocument := {
  numPages : nat;
  getPage : nat -> result PDFPage
}.

(** A file of the file input: its name, and what [FileReader] reads from it
    ([onload] with the bytes, or [onerror]). *)
Record File := {
  name : string;
  readAsArrayBuffer : result (list Byte.byte)
}.

Definition join (sep : string) (parts : list string) : string :=
  String.concat sep parts.

(** The body of the [for] loop of [parsePdf], [remaining] iterations from
    page index [i] on. *)
Fixpoint parsePdf_loop (pdf : PDFDocument) (remaining : nat) (i : nat)
    (extractedText : string) : M string :=
  match remaining with
  | O => ret extractedText
  | S remaining' =>
      do page <- lift (getPage pdf (i + 1)%nat);
      do textContent <- lift (getTextContent page);
      let pageText := trim (join " " (map str (items textContent))) in
      parsePdf_loop pdf remaining' (i + 1)%nat (extractedText +:+ pageText +:+ Text.newline)
  end.

Section ParsePdf.

(** [pdfjsLib.getDocument(typedarray).promise] *)
Variable getDocument : list Byte.byte -> result PDFDocument.

Definition parsePdf (file : File) : M string :=
  match readAsArrayBuffer file with
  | Ok typedarray =>
      try_catch
        (do pdf <- lift (getDocument typedarray);
         do extractedText <- parsePdf_loop pdf (numPages pdf) 0%nat "";
         exec (if negb (truthy (VStr (trim extractedText)))
               then emit (ConsoleWarn "Aucun texte extrait du PDF")
               else ret tt);
         ret extractedText)
        (fun err =>
           exec emit (ConsoleError "Erreur lors de l'extraction du texte:");
           throw err)
  | Throw err =>
      exec emit (ConsoleError "Erreur lors de la lecture du fichier:");
      throw err
  end.

End ParsePdf.

(** ** [generateQuizWithGPT] *)

(** The answer of [fetch]: the fields the component reads, and what
    [response.json()] resolves to. *)
Record Response := {
  ok : bool;
  status : Z;
  statusText : string;
  json : result value
}.

Definition fence_open : string := "```json" +:+ newline.
Definition fence_close : string := newline +:+ "```".

(** [content.match(/```json\n([\s\S]*?)\n```/)]: the first capture group of
    the leftmost match, the lazy star stopping at the first closing fence. *)
Definition match_fence (content : string) : option string :=
  match search fence_open content with
  | None => None
  | Some (_, rest) =>
      match search fence_close rest with
      | None => None
      | Some (captured, _) => Some captured
      end
  end.

(** [content.match(...)] on a run-time value: only a string has the method. *)
Definition string_match (content : value) : result (option string) :=
  match content with
  | VStr s => Ok (match_fence s)
  | _ => Throw type_error
  end.

Definition msg_token_missing : string := "GPT Token is missing!".
Definition msg_invalid_format : string := "Format de réponse GPT invalide".
Definition msg_malformed : string := "Le JSON GPT est mal formaté.".
Definition msg_missing_fields : string :=
  "Le JSON GPT ne contient pas 'title' ou 'questions'.".

(** [`question-${index}-${Date.now()}`] *)
Definition stamped_id (index : nat) (now : Z) : string :=
  "question-" +:+ pretty index +:+ "-" +:+ pretty now.

Section Generation.

(** [JSON.parse]: the value, or the [SyntaxError] it throws. *)
Variable JSON_parse : string -> result value.

(** What the endpoint answers to the request built from the token, the
    PDF text and the parameters (or the error [fetch] rejects with), and
    the clock: [now index] is what [Date.now()] returns when the question
    at [index] is stamped. *)
Variable fetched : result Response.
Variable now : nat -> Z.

(** From [let quiz: QuizData;] to [return quiz;]: parse, re-stamp the
    identifiers, validate. *)
Definition quiz_of_json (jsonContent : string) : M value :=
  do quiz <-
    try_catch
      (do quiz <- lift (JSON_parse jsonContent);
       do questions <- lift (get quiz "questions");
       do stamped <- lift (array_map questions (fun q index =>
         VObj (assign_prop "id" (VStr (stamped_id index (now index)))
                 (spread q))));
       lift (set quiz "questions" stamped))
      (fun err =>
         exec emit (ConsoleError "Erreur de parsing JSON:");
         throw msg_malformed);
  do title <- lift (get quiz "title");
  do questions <- lift (get quiz "questions");
  if negb (truthy title) || negb (isArray questions)
  then throw msg_missing_fields
  else ret quiz.

Definition generateQuizWithGPT (gptToken pdfText : string) (quizParams : QuizParams)
  : M value :=
  if negb (truthy (VStr gptToken)) then throw msg_token_missing
  else
    do response <- lift fetched;
    if negb (ok response)
    then throw ("Erreur API GPT: " +:+ pretty (status response)
                  +:+ " - " +:+ statusText response)
    else
      do data <- lift (json response);
      exec emit ConsoleLog;
      do choices <- lift (get data "choices");
      do choice <- lift (get_index choices 0);
      do message <- lift (get choice "message");
      do content <- lift (get message "content");
      do jsonMatch <- lift (string_match content);
      match jsonMatch with
      | None => throw msg_invalid_format
      | Some jsonContent => quiz_of_json jsonContent
      end.

End Generation.

(** ** The component's state *)

Record State := {
  gptToken : string;
  pdfText : string;
  pdfName : string;
  quizParams : QuizParams;
  questions : list value;
  quizTitle : value;
  loading : bool
}.

Definition initial : State := {|
    gptToken := "";
    pdfText := "";
    pdfName := "";
    quizParams := {| difficulty := facile; questionCount := Finite 5 |};
    questions := [];
    quizTitle := VStr "Mon Quiz Personnalisé";
    loading := false
  |}.

Definition setGptToken (x : string) (st : State) : State :=
    {| gptToken := x; pdfText := pdfText st; pdfName := pdfName st;
       quizParams := quizParams st; questions := questions st;
       quizTitle := quizTitle st; loading := loading st |}.
Definition setPdfText (x : string) (st : State) : State :=
    {| gptToken := gptToken st; pdfText := x; pdfName := pdfName st;
       quizParams := quizParams st; questions := questions st;
       quizTitle := quizTitle st; loading := loading st |}.
Definition setPdfName (x : string) (st : State) : State :=
    {| gptToken := gptToken st; pdfText := pdfText st; pdfName := x;
       quizParams := quizParams st; questions := questions st;
       quizTitle := quizTitle st; loading := loading st |}.
Definition setQuizParams (x : QuizParams) (st : State) : State :=
    {| gptToken := gptToken st; pdfText := pdfText st; pdfName := pdfName st;
       quizParams := x; questions := questions st;
       quizTitle := quizTitle st; loading := loading st |}.
Definition setQuestions (x : list value) (st : State) : State :=
    {| gptToken := gptToken st; pdfText := pdfText st; pdfName := pdfName st;
       quizParams := quizParams st; questions := x;
       quizTitle := quizTitle st; loading := loading st |}.
Definition setQuizTitle (x : value) (st : State) : State :=
    {| gptToken := gptToken st; pdfText := pdfText st; pdfName := pdfName st;
       quizParams := quizParams st; questions := questions st;
       quizTitle := x; loading := loading st |}.
Definition setLoading (x : bool) (st : State) : State :=
    {| gptToken := gptToken st; pdfText := pdfText st; pdfName := pdfName st;
       quizParams := quizParams st; questions := questions st;
       quizTitle := quizTitle st; loading := x |}.

(** ** The handlers *)

Record DraggableLocation := { index : Z }.
Record DropResult := {
  source : DraggableLocation;
  destination : option DraggableLocation
}.

Definition onDragEnd (result : DropResult) (st : State) : State :=
  match destination result with
  | None => st
  | Some dest =>
      let items := questions st in
      let '(removedArr, items) := splice items (index (source result)) 1 [] in
      let reorderedItem := first_of removedArr in
      let '(_, items) := splice items (index dest) 0 [reorderedItem] in
      setQuestions items st
  end.

Definition msg_unreadable_pdf : string := "Impossible de lire le PDF.".
Definition msg_need_token_and_pdf : string :=
    "Veuillez renseigner un token GPT et un PDF.".

Section Handlers.

Variable getDocument : list Byte.byte -> result PDFDocument.
Variable JSON_parse : string -> result value.

(** [event.target.files?.[0]] is the [file], if any. *)
Definition handlePdfUpload (file : option File) (st : State) : list Effect * State :=
  match file with
  | None => ([], st)
  | Some file =>
      let st := setPdfName (name file) st in
      match parsePdf getDocument file with
      | (log, Ok text) => (ConsoleLog :: log ++ [ConsoleLog], setPdfText text st)
      | (log, Throw err) => (ConsoleLog :: log ++ [Alert msg_unreadable_pdf], st)
      end
  end.

(** [`question-${Date.now()}-${Math.random().toString(36).substr(2, 9)}`];
    [random36] is [Math.random().toString(36)]. *)
Definition fresh_id (now : Z) (random36 : string) : string :=
  "question-" +:+ pretty now +:+ "-" +:+ substr random36 2 9.

Definition addQuestion (now : Z) (random36 : string) (st : State) : State :=
  let newQuestion :=
    VObj [("id", VStr (fresh_id now random36));
          ("title", VStr "Nouvelle question");
          ("description", VStr "");
          ("type", VStr "courte")] in
  setQuestions (questions st ++ [newQuestion]) st.

(** [prev.filter((q) => keep q)], where the callback may throw. *)
Fixpoint filter_questions (keep : value -> result bool) (prev : list value)
  : result (list value) :=
  match prev with
  | [] => Ok []
  | q :: rest =>
      match keep q with
      | Throw e => Throw e
      | Ok b =>
          match filter_questions keep rest with
          | Throw e => Throw e
          | Ok rest' => Ok (if b then q :: rest' else rest')
          end
      end
  end.

(** [prev.map((q) => f q)], where the callback may throw. *)
Fixpoint map_questions (f : value -> result value) (prev : list value)
  : result (list value) :=
  match prev with
  | [] => Ok []
  | q :: rest =>
      match f q with
      | Throw e => Throw e
      | Ok q' =>
          match map_questions f rest with
          | Throw e => Throw e
          | Ok rest' => Ok (q' :: rest')
          end
      end
  end.

Definition removeQuestion (id : string) (st : State) : result State :=
  match filter_questions
          (fun q => match get q "id" with
                    | Ok v => Ok (negb (is_string v id))
                    | Throw e => Throw e
                    end)
          (questions st) with
  | Ok qs => Ok (setQuestions qs st)
  | Throw e => Throw e
  end.

(** The three field editors of the question whose id is [id]:
    [q.id === question.id ? { ...q, field: x } : q]. *)
Definition editQuestion (id : string) (field : string) (x : value) (st : State)
  : result State :=
  match map_questions
          (fun q => match get q "id" with
                    | Ok v => Ok (if is_string v id
                                  then VObj (assign_prop field x (spread q))
                                  else q)
                    | Throw e => Throw e
                    end)
          (questions st) with
  | Ok qs => Ok (setQuestions qs st)
  | Throw e => Throw e
  end.

Definition generateQuiz (fetched : result Response) (now : nat -> Z) (st : State)
  : list Effect * State :=
  if negb (truthy (VStr (gptToken st))) || negb (truthy (VStr (pdfText st)))
  then ([Alert msg_need_token_and_pdf], st)
  else
    let st := setLoading true st in
    let '(log, st) :=
      match (do quiz <- generateQuizWithGPT JSON_parse fetched now
                          (gptToken st) (pdfText st) (quizParams st);
             do qs <- lift (get quiz "questions");
             do title <- lift (get quiz "title");
             ret (setQuizTitle title (setQuestions (array_elements qs) st))) with
      | (log, Ok st') => (log, st')
      | (log, Throw err) => (log ++ [Alert err], st)
      end in
    (log, setLoading false st).

(** Whether the engine's [parseInt] zeroes the digits after the 20th. *)
Variable approximates : bool.

(** The question-count field: [parseInt(e.target.value, 10) || 5]. *)
Definition changeQuestionCount (input : string) (st : State) : State :=
  let parsed := parseInt approximates input in
  setQuizParams {| difficulty := difficulty (quizParams st);
                   questionCount := if truthy_number parsed then parsed else Finite 5 |}
                st.

Definition changeDifficulty (d : Difficulty) (st : State) : State :=
  setQuizParams {| difficulty := d;
                   questionCount := questionCount (quizParams st) |} st.

End Handlers.

(** ** The events on the question list *)

Inductive QuestionType := courte | longue | note5.

Definition type_name (t : QuestionType) : string :=
  match t with
  | courte => "courte"
  | longue => "longue"
  | note5 => "note5"
  end.

(** What the user does to the question list, with what the outside world
    answers: the clock and the random number at a manual add, the endpoint's
    answer and the clock at a generation. *)
Inductive Event : Type :=
| AddClick (now : Z) (random36 : string)
| DeleteClick (id : string)
| TitleEdit (id newTitle : string)
| DescriptionEdit (id newDesc : string)
| TypeEdit (id : string) (newType : QuestionType)
| DragEnd (result : DropResult)
| GenerateClick (fetched : result Response) (now : nat -> Z).

Section Events.

Variable JSON_parse : string -> result value.

Definition handle (ev : Event) (st : State) : result State :=
  match ev with
  | AddClick now random36 => Ok (addQuestion now random36 st)
  | DeleteClick id => removeQuestion id st
  | TitleEdit id newTitle => editQuestion id "title" (VStr newTitle) st
  | DescriptionEdit id newDesc => editQuestion id "description" (VStr newDesc) st
  | TypeEdit id newType => editQuestion id "type" (VStr (type_name newType)) st
  | DragEnd result => Ok (onDragEnd result st)
  | GenerateClick fetched now => Ok (snd (generateQuiz JSON_parse fetched now st))
  end.

Fixpoint run (evs : list Event) (st : State) : result State :=
  match evs with
  | [] => Ok st
  | ev :: evs' =>
      match handle ev st with
      | Ok st' => run evs' st'
      | Throw e => Throw e
      end
  end.

End Events.

(** ** [reorder] on arrays in memory

    Arrays are objects: [reorder] receives a reference.  The store maps a
    reference to the elements of the array it denotes. *)

Module Store.

Abbreviation ref := nat.
Abbreviation store := (gmap nat (list value)).

(** [Array.from(src)]: a new array with the elements of [src]. *)
Definition Array_from (src : ref) (h : store) : option (ref * store) :=
  match h !! src with
  | None => None
  | Some xs => let r := fresh (dom h) in Some (r, <[r := xs]> h)
  end.

(** [a.splice(start, deleteCount, ...items)] changes [a] in place. *)
Definition Array_splice (a : ref) (start deleteCount : Z) (items : list value)
    (h : store) : option (list value * store) :=
  match h !! a with
  | None => None
  | Some xs =>
      let '(removed, xs') := splice xs start deleteCount items in
      Some (removed, <[a := xs']> h)
  end.

Definition reorder (list : ref) (startIndex endIndex : Z) (h : store)
  : option (ref * store) :=
  match Array_from list h with
  | None => None
  | Some (result, h) =>
      match Array_splice result startIndex 1 [] h with
      | None => None
      | Some (removedArr, h) =>
          let removed := first_of removedArr in
          match Array_splice result endIndex 0 [removed] h with
          | None => None
          | Some (_, h) => Some (result, h)
          end
      end
  end.

End Store.

(** * Specification vocabulary *)

(** ** Reordering *)

(** The specification's words: [x] put back at position [i]. *)
Fixpoint insert_at {A} (i : nat) (x : A) (l : list A) : list A :=
  match i, l with
  | O, _ => x :: l
  | S i', y :: l' => y :: insert_at i' x l'
  | S _, [] => [x]
  end.

(** ** Text extraction *)

(** The specification's words: a page's text items joined by single spaces
    and trimmed, followed by a newline; the pages one after the other. *)
Definition page_text (page : TextContent) : string :=
  trim (join " " (map str (items page))) +:+ newline.

Fixpoint document_text (pages : list TextContent) : string :=
  match pages with
  | [] => ""
  | page :: rest => page_text page +:+ document_text rest
  end.

(** Page number [i + 1] of [pdf] can be fetched and its text is [pages !! i]. *)
Definition pages_of (pdf : PDFDocument) (pages : list TextContent) : Prop :=
  length pages = numPages pdf /\
  forall (i : nat) (tc : TextContent),
    pages !! i = Some tc ->
    exists page, getPage pdf (i + 1)%nat = Ok page /\ getTextContent page = Ok tc.

(** ** The fenced JSON block *)

(** The content has a substring that the pattern [```json\n([\s\S]*?)\n```]
    matches: an opening fence, anything, a closing fence. *)
Definition fenced (content : string) : Prop :=
  exists a b c, content = a +:+ fence_open +:+ b +:+ fence_close +:+ c.

(** ** Generation *)

Section GenerationCases.

Variable JSON_parse : string -> result value.
Variable fetched : result Response.
Variable now : nat -> Z.

(** The re-stamped questions. *)
Definition stamp (qs : list value) : list value :=
  imap (fun index q =>
          VObj (assign_prop "id" (VStr (stamped_id index (now index))) (spread q)))
       qs.

(** [quiz_of_json], case by case. *)
Definition quiz_of_json_cases (jsonContent : string) : M value :=
  match JSON_parse jsonContent with
  | Ok (VObj props) =>
      match lookup_prop "questions" props with
      | Some (VArr qs) =>
          if truthy (default VUndefined (lookup_prop "title" props))
          then ([], Ok (VObj (assign_prop "questions" (VArr (stamp qs)) props)))
          else ([], Throw msg_missing_fields)
      | _ => ([ConsoleError "Erreur de parsing JSON:"], Throw msg_malformed)
      end
  | _ => ([ConsoleError "Erreur de parsing JSON:"], Throw msg_malformed)
  end.

(** The endpoint answered with a 2xx response whose body holds [content] at
    [choices[0].message.content]. *)
Definition replied (content : value) : Prop :=
  exists response data choices choice message,
    fetched = Ok response /\ ok response = true /\ json response = Ok data /\
    get data "choices" = Ok choices /\ get_index choices 0 = Ok choice /\
    get choice "message" = Ok message /\ get message "content" = Ok content.

End GenerationCases.

(** ** Failures *)

(** The two operations of the component that can fail. *)
Inductive Operation : Type :=
| Upload (file : File)
| Generate (fetched : result Response) (now : nat -> Z).

Section Failing.

Variable getDocument : list Byte.byte -> result PDFDocument.
Variable JSON_parse : string -> result value.

Definition perform (op : Operation) (st : State) : list Effect * State :=
  match op with
  | Upload file => handlePdfUpload getDocument (Some file) st
  | Generate fetched now => generateQuiz JSON_parse fetched now st
  end.

(** The upload fails when the PDF cannot be read or parsed; the generation
    fails when the token or the PDF text is missing, or when
    [generateQuizWithGPT] throws. *)
Definition fails (op : Operation) (st : State) : Prop :=
  match op with
  | Upload file => exists err, snd (parsePdf getDocument file) = Throw err
  | Generate fetched now =>
      gptToken st = "" \/ pdfText st = "" \/
      exists err,
        snd (generateQuizWithGPT JSON_parse fetched now
               (gptToken st) (pdfText st) (quizParams st)) = Throw err
  end.

End Failing.

(** ** Identifiers *)

Fixpoint no_dash (s : string) : Prop :=
  match s with
  | EmptyString => True
  | String c s' => c <> "-"%char /\ no_dash s'
  end.

(** [q.id] for each question of the list. *)
Definition question_ids (qs : list value) : list (result value) :=
  (fun q => get q "id") <$> qs.

Definition is_string_id (r : result value) : Prop := exists s, r = Ok (VStr s).

(** Every question has a string for identifier, and no two have the same. *)
Definition distinct_ids (qs : list value) : Prop :=
  Forall is_string_id (question_ids qs) /\ NoDup (question_ids qs).

Section Expected.

Variable JSON_parse : string -> result value.

(** What the outside world is assumed to do: the drag-and-drop library
    reports positions within the list, and the identifier made from the
    clock and the random number at a manual add is not one of the list. *)
Definition expected (ev : Event) (st : State) : Prop :=
  match ev with
  | AddClick now random36 =>
      Ok (VStr (fresh_id now random36)) ∉ question_ids (questions st)
  | DragEnd result =>
      match destination result with
      | None => True
      | Some dest =>
          0 <= index (source result) < Z.of_nat (length (questions st)) /\
          0 <= index dest < Z.of_nat (length (questions st))
      end
  | _ => True
  end.

Fixpoint all_expected (evs : list Event) (st : State) : Prop :=
  match evs with
  | [] => True
  | ev :: evs' =>
      expected ev st /\
      match handle JSON_parse ev st with
      | Ok st' => all_expected evs' st'
      | Throw _ => True
      end
  end.

End Expected.

(** ** The callbacks of the list operations *)

(** The callback of [removeQuestion]'s [filter]. *)
Abbreviation keep_others id :=
  (fun q => match get q "id" with
            | Ok v => Ok (negb (is_string v id))
            | Throw e => Throw e
            end).

(** The callback of the editors' [map]. *)
Abbreviation edit_matching id field x :=
  (fun q => match get q "id" with
            | Ok v => Ok (if is_string v id
                          then VObj (assign_prop field x (spread q))
                          else q)
            | Throw e => Throw e
            end).

(** The question [q] has the string [id] for identifier. *)
Definition has_id (id : string) (q : value) : bool :=
  match get q "id" with
  | Ok v => is_string v id
  | Throw _ => false
  end.

(** ** The question-count field *)

(** The integer a text starts with, read exactly: white space, an optional
    sign, decimal digits.  [None] when no digit stands there. *)
Definition leading_integer (s : string) : option Z :=
  let '(sign, ds) := sign_and_digits s in
  match ds with
  | [] => None
  | _ => Some (sign * digits_value ds)
  end.


(** ** Pages *)

(** What page number [k] gives: its text content, or the error of
    [getPage] or of [getTextContent]. *)
Definition page_result (pdf : PDFDocument) (k : nat) : result TextContent :=
  match getPage pdf k with
  | Ok page => getTextContent page
  | Throw e => Throw e
  end.

(** ** Plain text *)

Fixpoint no_backtick (s : string) : Prop :=
  match s with
  | EmptyString => True
  | String c s' => c <> "`"%char /\ no_backtick s'
  end.

(** * Sample inputs *)

Definition sample_page1 : TextContent :=
  {| items := [ {| str := " Hello" |}; {| str := "world " |} ] |}.

Definition sample_page2 : TextContent := {| items := [] |}.

Definition sample_pdf : PDFDocument :=
  {| numPages := 2;
     getPage := fun n => match n with
                         | 1%nat => Ok {| getTextContent := Ok sample_page1 |}
                         | 2%nat => Ok {| getTextContent := Ok sample_page2 |}
                         | _ => Throw "Invalid page request"
                         end |}.

Definition sample_file : File := {| name := "a.pdf"; readAsArrayBuffer := Ok [] |}.

Definition unreadable_file : File :=
  {| name := "notes.pdf"; readAsArrayBuffer := Throw "NotReadableError" |}.

(** A 200 response whose body carries [content] as the assistant's message. *)
Definition reply_with (content : value) : Response :=
  {| ok := true; status := 200; statusText := "OK";
     json := Ok (VObj [("choices",
                        VArr [VObj [("index", VNum 0);
                                    ("message", VObj [("role", VStr "assistant");
                                                      ("content", content)])]])]) |}.

Definition in_fence (jsonContent : string) : string :=
  "Voici le quiz :" +:+ newline +:+ fence_open +:+ jsonContent +:+ fence_close.

Definition dq : string := String "034"%char "".

(** [{"title":"Quiz"}] *)
Definition json_title_only : string :=
  "{" +:+ dq +:+ "title" +:+ dq +:+ ":" +:+ dq +:+ "Quiz" +:+ dq +:+ "}".

(** [{"title":""}] *)
Definition json_empty_title_only : string :=
  "{" +:+ dq +:+ "title" +:+ dq +:+ ":" +:+ dq +:+ dq +:+ "}".

(** [{"title":"","questions":[{"id":1,"title":"Q"}]}] *)
Definition json_empty_title : string :=
  "{" +:+ dq +:+ "title" +:+ dq +:+ ":" +:+ dq +:+ dq +:+ ","
      +:+ dq +:+ "questions" +:+ dq +:+ ":[{" +:+ dq +:+ "id" +:+ dq +:+ ":1,"
      +:+ dq +:+ "title" +:+ dq +:+ ":" +:+ dq +:+ "Q" +:+ dq +:+ "}]}".

(** [{"title":"Quiz","questions":[{"id":1,"title":"Q"},{"id":1,"title":"R"}]}] *)
Definition json_quiz : string :=
  "{" +:+ dq +:+ "title" +:+ dq +:+ ":" +:+ dq +:+ "Quiz" +:+ dq +:+ ","
      +:+ dq +:+ "questions" +:+ dq +:+ ":[{" +:+ dq +:+ "id" +:+ dq +:+ ":1,"
      +:+ dq +:+ "title" +:+ dq +:+ ":" +:+ dq +:+ "Q" +:+ dq +:+ "},{"
      +:+ dq +:+ "id" +:+ dq +:+ ":1,"
      +:+ dq +:+ "title" +:+ dq +:+ ":" +:+ dq +:+ "R" +:+ dq +:+ "}]}".

(** [JSON.parse] on the sample texts; anything else stands for a text that
    is not JSON. *)
Definition sample_JSON_parse (text : string) : result value :=
  if String.eqb text json_title_only then
    Ok (VObj [("title", VStr "Quiz")])
  else if String.eqb text json_empty_title_only then
    Ok (VObj [("title", VStr "")])
  else if String.eqb text json_empty_title then
    Ok (VObj [("title", VStr "");
              ("questions", VArr [VObj [("id", VNum 1); ("title", VStr "Q")]])])
  else if String.eqb text json_quiz then
    Ok (VObj [("title", VStr "Quiz");
              ("questions", VArr [VObj [("id", VNum 1); ("title", VStr "Q")];
                                  VObj [("id", VNum 1); ("title", VStr "R")]])])
  else Throw "SyntaxError".

Definition sample_params : QuizParams :=
  {| difficulty := facile; questionCount := Finite 5 |}.

Definition sample_clock (index : nat) : Z := 1700000000000.

(** The state once a token is typed and a PDF is read. *)
Definition ready : State := setPdfText "texte du PDF" (setGptToken "sk-test" initial).

Definition sample_events : list Event :=
  [ AddClick 1700000000000 "0.4fzyo82mvyr";
    AddClick 1700000000001 "0.9k2j5x7q1ab";
    TitleEdit "question-1700000000000-4fzyo82mv" "Capitale de la France ?";
    DragEnd {| source := {| index := 0 |}; destination := Some {| index := 1 |} |};
    DeleteClick "question-1700000000001-9k2j5x7q1";
    GenerateClick (Ok (reply_with (VStr (in_fence json_quiz)))) sample_clock;
    AddClick 1700000000002 "0.4fzyo82mvyr";
    DragEnd {| source := {| index := 2 |}; destination := None |} ].

(** Three pages; the text of the second cannot be read. *)
Definition damaged_pdf : PDFDocument :=
  {| numPages := 3;
     getPage := fun n => match n with
                         | 1%nat => Ok {| getTextContent := Ok sample_page1 |}
                         | 2%nat => Ok {| getTextContent := Throw "page 2 illisible" |}
                         | _ => Throw "page 3 absente"
                         end |}.

(** The two questions of the sample list, as [addQuestion] builds them. *)
Definition two_questions : State :=
  addQuestion 1700000000001 "0.9k2j5x7q1ab" (addQuestion 1700000000000 "0.4fzyo82mvyr" initial).

(** The same list, once a token is typed and a PDF is read. *)
Definition two_questions_ready : State :=
  setPdfText "texte du PDF" (setGptToken "sk-test" two_questions).

(** * Properties *)

(** ** Reordering *)

Lemma insert_at_take_drop {A} (i : nat) (x : A) (l : list A) :
  (i <= length l)%nat -> insert_at i x l = take i l ++ x :: drop i l.
Proof.
  revert i; induction l as [|y l IH]; intros [|i] Hi; simpl in *; try lia; auto.
  f_equal. apply IH. lia.
Qed.

Lemma insert_at_Permutation {A} (i : nat) (x : A) (l : list A) :
  insert_at i x l ≡ₚ x :: l.
Proof.
  revert i; induction l as [|y l IH]; intros [|i]; simpl; auto.
  rewrite IH. apply Permutation_swap.
Qed.

Lemma insert_at_lookup {A} (i : nat) (x : A) (l : list A) :
  (i <= length l)%nat -> insert_at i x l !! i = Some x.
Proof.
  revert i; induction l as [|y l IH]; intros [|i] Hi; simpl in *; try lia; auto.
  apply IH. lia.
Qed.

Lemma splice_in_range (l : list value) (a d : nat) (items : list value) :
  (a <= length l)%nat -> (d <= length l - a)%nat ->
  splice l (Z.of_nat a) (Z.of_nat d) items
  = (take d (drop a l), take a l ++ items ++ drop (a + d) l).
Proof.
  intros Ha Hd. unfold splice; cbv zeta.
  destruct (Z.ltb_spec (Z.of_nat a) 0) as [?|_]; [lia|].
  replace (Z.to_nat (Z.min (Z.of_nat a) (Z.of_nat (length l)))) with a by lia.
  replace (Z.to_nat _) with d by lia.
  reflexivity.
Qed.

Lemma splice_remove_one (l : list value) (s : nat) (x : value) :
  l !! s = Some x -> splice l (Z.of_nat s) 1 [] = ([x], delete s l).
Proof.
  intros Hx. pose proof (lookup_lt_Some _ _ _ Hx) as Hlt.
  rewrite (splice_in_range l s 1) by lia.
  rewrite (drop_S _ _ _ Hx), delete_take_drop. simpl.
  do 3 f_equal. lia.
Qed.

Lemma splice_insert_one (l : list value) (e : nat) (x : value) :
  (e <= length l)%nat -> splice l (Z.of_nat e) 0 [x] = ([], insert_at e x l).
Proof.
  intros He. rewrite (splice_in_range l e 0) by lia.
  rewrite Nat.add_0_r, insert_at_take_drop by done. reflexivity.
Qed.

Lemma reorder_in_bounds (l : list value) (s e : nat) (x : value) :
  l !! s = Some x -> (e < length l)%nat ->
  reorder l (Z.of_nat s) (Z.of_nat e) = insert_at e x (delete s l).
Proof.
  intros Hx He. pose proof (lookup_lt_Some _ _ _ Hx) as Hs.
  unfold reorder. rewrite (splice_remove_one _ _ _ Hx).
  cbv beta iota zeta. change (first_of [x]) with x.
  rewrite splice_insert_one; [done|].
  rewrite length_delete by eauto. lia.
Qed.

(** C5. For a list and two indices within its bounds, [reorder] returns the
    list with the element at [startIndex] removed and put back at position
    [endIndex]; the result has the length and the elements of the input. *)
Theorem reorder_removes_and_reinserts (l : list value) (startIndex endIndex : Z) :
  0 <= startIndex < Z.of_nat (length l) ->
  0 <= endIndex < Z.of_nat (length l) ->
  exists removed,
    l !! Z.to_nat startIndex = Some removed /\
    reorder l startIndex endIndex
      = insert_at (Z.to_nat endIndex) removed (delete (Z.to_nat startIndex) l) /\
    reorder l startIndex endIndex !! Z.to_nat endIndex = Some removed /\
    length (reorder l startIndex endIndex) = length l /\
    reorder l startIndex endIndex ≡ₚ l.
Proof.
  intros Hs He.
  destruct (lookup_lt_is_Some_2 l (Z.to_nat startIndex)) as [x Hx]; [lia|].
  exists x. split; [done|].
  assert (Heq : reorder l startIndex endIndex
                = insert_at (Z.to_nat endIndex) x (delete (Z.to_nat startIndex) l)).
  { rewrite <- (Z2Nat.id startIndex), <- (Z2Nat.id endIndex) at 1 by lia.
    apply reorder_in_bounds; [done|lia]. }
  assert (Hperm : reorder l startIndex endIndex ≡ₚ l).
  { rewrite Heq, insert_at_Permutation. symmetry. by apply delete_Permutation. }
  repeat split; [done| |by rewrite Hperm|done].
  rewrite Heq. apply insert_at_lookup.
  rewrite length_delete by eauto. lia.
Qed.

Lemma reorder_removes_and_reinserts_witness :
  exists removed,
    [VStr "a"; VStr "b"; VStr "c"] !! Z.to_nat 0 = Some removed /\
    reorder [VStr "a"; VStr "b"; VStr "c"] 0 2
      = insert_at (Z.to_nat 2) removed (delete (Z.to_nat 0) [VStr "a"; VStr "b"; VStr "c"]) /\
    reorder [VStr "a"; VStr "b"; VStr "c"] 0 2 !! Z.to_nat 2 = Some removed /\
    length (reorder [VStr "a"; VStr "b"; VStr "c"] 0 2) = 3%nat /\
    reorder [VStr "a"; VStr "b"; VStr "c"] 0 2 ≡ₚ [VStr "a"; VStr "b"; VStr "c"].
Proof.
  apply (reorder_removes_and_reinserts [VStr "a"; VStr "b"; VStr "c"] 0 2);
    simpl; lia.
Defined.

(** The handler inlines the same two [splice] calls. *)
Lemma onDragEnd_reorder (result : DropResult) (dest : DraggableLocation) (st : State) :
  destination result = Some dest ->
  onDragEnd result st
  = setQuestions (reorder (questions st) (index (source result)) (index dest)) st.
Proof.
  intros Hd. unfold onDragEnd, reorder. rewrite Hd.
  destruct (splice (questions st) (index (source result)) 1 []) as [removedArr items].
  destruct (splice items (index dest) 0 [first_of removedArr]). reflexivity.
Qed.

(** C10. A drop outside of any droppable area (no destination) leaves the
    question list, and the rest of the state, as it was. *)
Theorem onDragEnd_no_destination (src : DraggableLocation) (st : State) :
  onDragEnd {| source := src; destination := None |} st = st
  /\ questions (onDragEnd {| source := src; destination := None |} st) = questions st.
Proof. split; reflexivity. Qed.

(** C8. [reorder] leaves the array it is given as it was: it returns a new
    reference, the array behind the given one still holds the same elements
    in the same order, no other array of the store changes, and the new
    array holds the reordered elements. *)
Theorem reorder_does_not_mutate_input
    (h : Store.store) (list : Store.ref) (xs : Datatypes.list value)
    (startIndex endIndex : Z) :
  h !! list = Some xs ->
  exists result h',
    Store.reorder list startIndex endIndex h = Some (result, h') /\
    result <> list /\
    h' !! list = Some xs /\
    h' !! result = Some (reorder xs startIndex endIndex) /\
    (forall r, r <> result -> h' !! r = h !! r).
Proof.
  intros Hxs.
  set (r := fresh (dom h)).
  assert (Hfresh : h !! r = None).
  { apply not_elem_of_dom. apply is_fresh. }
  assert (Hne : r <> list).
  { intros Heq. rewrite Heq, Hxs in Hfresh. discriminate. }
  unfold Store.reorder, Store.Array_from. rewrite Hxs. fold r.
  unfold Store.Array_splice at 1. rewrite lookup_insert_eq.
  unfold reorder.
  destruct (splice xs startIndex 1 []) as [removedArr xs1].
  unfold Store.Array_splice. rewrite lookup_insert_eq.
  destruct (splice xs1 endIndex 0 [first_of removedArr]) as [ignored xs2].
  eexists _, _. split; [reflexivity|].
  split; [done|]. rewrite !insert_insert_eq.
  split; [by rewrite lookup_insert_ne|].
  split; [by rewrite lookup_insert_eq|].
  intros r' Hr'. by rewrite lookup_insert_ne.
Qed.

Lemma reorder_does_not_mutate_input_witness :
  exists result h',
    Store.reorder 0%nat 0 1 {[ 0%nat := [VStr "a"; VStr "b"] ]} = Some (result, h') /\
    result <> 0%nat /\
    h' !! 0%nat = Some [VStr "a"; VStr "b"] /\
    h' !! result = Some (reorder [VStr "a"; VStr "b"] 0 1) /\
    (forall r, r <> result ->
               h' !! r = ({[ 0%nat := [VStr "a"; VStr "b"] ]} : Store.store) !! r).
Proof.
  apply (reorder_does_not_mutate_input {[ 0%nat := [VStr "a"; VStr "b"] ]} 0%nat
           [VStr "a"; VStr "b"] 0 1).
  reflexivity.
Defined.

(** ** Strings *)

Lemma string_app_assoc (a b c : string) : (a +:+ b) +:+ c = a +:+ b +:+ c.
Proof.
  unfold String.app. induction a as [|x a IH]; simpl; [done|]. by rewrite IH.
Qed.

Lemma string_app_nil_r (a : string) : a +:+ "" = a.
Proof.
  unfold String.app. induction a as [|x a IH]; simpl; [done|]. by rewrite IH.
Qed.

Lemma string_app_length (a b : string) :
  String.length (a +:+ b) = (String.length a + String.length b)%nat.
Proof.
  unfold String.app. induction a as [|x a IH]; simpl; [done|]. by rewrite IH.
Qed.

(** ** Text extraction *)

Lemma parsePdf_loop_text (pdf : PDFDocument) (pages : list TextContent)
    (i : nat) (extractedText : string) :
  (forall (j : nat) (tc : TextContent),
      pages !! j = Some tc ->
      exists page, getPage pdf (i + j + 1)%nat = Ok page /\ getTextContent page = Ok tc) ->
  parsePdf_loop pdf (length pages) i extractedText
  = ([], Ok (extractedText +:+ document_text pages)).
Proof.
  revert i extractedText.
  induction pages as [|tc pages IH]; intros i acc Hpages; simpl.
  - by rewrite string_app_nil_r.
  - destruct (Hpages 0%nat tc eq_refl) as (page & Hpage & Htc).
    rewrite Nat.add_0_r in Hpage. rewrite Hpage. simpl. rewrite Htc. simpl.
    rewrite IH.
    + unfold page_text. by rewrite !string_app_assoc.
    + intros j tc' Hj. destruct (Hpages (S j) tc' Hj) as (page' & Hp & Ht).
      exists page'. split; [|done]. rewrite <- Hp. f_equal. lia.
Qed.

(** C7. When the file can be read, pdf.js parses it and every page from 1
    to [numPages] hands out its text, [parsePdf] resolves with the pages'
    texts in page order, each the page's items joined by single spaces,
    trimmed and followed by a newline.  When that text is empty once trimmed
    it warns on the console, and resolves all the same; otherwise it does
    nothing else. *)
Theorem parsePdf_extracts_text
    (getDocument : list Byte.byte -> result PDFDocument)
    (file : File) (typedarray : list Byte.byte)
    (pdf : PDFDocument) (pages : list TextContent) :
  readAsArrayBuffer file = Ok typedarray ->
  getDocument typedarray = Ok pdf ->
  pages_of pdf pages ->
  parsePdf getDocument file
  = (if String.eqb (trim (document_text pages)) ""
     then [ConsoleWarn "Aucun texte extrait du PDF"]
     else [],
     Ok (document_text pages)).
Proof.
  intros Hread Hdoc [Hlen Hpages].
  unfold parsePdf. rewrite Hread, Hdoc. simpl.
  rewrite <- Hlen, parsePdf_loop_text.
  - simpl. change ("" +:+ document_text pages) with (document_text pages).
    by destruct (String.eqb (trim (document_text pages)) "").
  - intros j tc Hj. simpl. by apply Hpages.
Qed.

Lemma parsePdf_extracts_text_witness :
  parsePdf (fun _ => Ok sample_pdf) sample_file
  = ([], Ok ("Hello world" +:+ newline +:+ newline)).
Proof.
  refine (parsePdf_extracts_text (fun _ => Ok sample_pdf) sample_file [] sample_pdf
            [sample_page1; sample_page2] eq_refl eq_refl _).
  split; [reflexivity|].
  intros [|[|i]] tc Hi; simpl in Hi; inversion Hi; subst; eexists; split; reflexivity.
Defined.

(** An empty document: the warning is logged and the promise resolves. *)
Example parsePdf_warns_on_empty_text :
  parsePdf (fun _ => Ok {| numPages := 1;
                           getPage := fun _ => Ok {| getTextContent := Ok {| items := [] |} |} |})
           {| name := "empty.pdf"; readAsArrayBuffer := Ok [] |}
  = ([ConsoleWarn "Aucun texte extrait du PDF"], Ok newline).
Proof. reflexivity. Qed.

(** ** The fenced JSON block *)

Section Search.

Variable needle : string.

Lemma prefix_split (hay : string) :
  String.prefix needle hay = true ->
  hay = needle +:+ skip (String.length needle) hay.
Proof.
  unfold String.app. revert hay.
  induction needle as [|c n IH]; intros [|d hay] Hp; simpl in *; try done.
  destruct (ascii_dec c d) as [->|]; [|done].
  f_equal. by apply IH.
Qed.

Lemma prefix_app (rest : string) : String.prefix needle (needle +:+ rest) = true.
Proof.
  unfold String.app. induction needle as [|c n IH]; simpl.
  - by destruct rest.
  - destruct (ascii_dec c c); [done|congruence].
Qed.

Lemma search_unfold (hay : string) :
  search needle hay
  = if String.prefix needle hay
    then Some ("", skip (String.length needle) hay)
    else match hay with
         | EmptyString => None
         | String c hay' =>
             match search needle hay' with
             | Some (before, after) => Some (String c before, after)
             | None => None
             end
         end.
Proof. by destruct hay. Qed.

(** Where [search] finds the needle, the needle stands. *)
Lemma search_sound (hay before after : string) :
  search needle hay = Some (before, after) ->
  hay = before +:+ needle +:+ after.
Proof.
  revert before. induction hay as [|c hay IH]; intros before;
    rewrite search_unfold;
    (destruct (String.prefix needle _) eqn:Hp;
     [intros [= <- <-]; by apply prefix_split in Hp|]); [done|].
  destruct (search needle hay) as [[b a]|]; [|done].
  intros [= <- <-]. unfold String.app; simpl. f_equal. by apply IH.
Qed.

(** It finds the first occurrence. *)
Lemma search_leftmost (hay before after a c : string) :
  search needle hay = Some (before, after) ->
  hay = a +:+ needle +:+ c ->
  (String.length before <= String.length a)%nat.
Proof.
  revert before a. induction hay as [|x hay IH]; intros before a;
    rewrite search_unfold;
    (destruct (String.prefix needle _) eqn:Hp;
     [intros [= <- <-] _; simpl; lia|]); [done|].
  destruct (search needle hay) as [[b r]|] eqn:Hs; [|done].
  intros [= <- <-] Hhay. destruct a as [|y a].
  - change ("" +:+ needle +:+ c) with (needle +:+ c) in Hhay.
    rewrite Hhay, prefix_app in Hp. done.
  - unfold String.app in Hhay; simpl in Hhay. injection Hhay as -> Hhay.
    simpl. apply le_n_S. by eapply IH.
Qed.

Lemma skip_app (n : nat) (u t : string) :
  (n <= String.length u)%nat -> skip n (u +:+ t) = skip n u +:+ t.
Proof.
  unfold String.app. revert u.
  induction n as [|n IH]; intros [|x u] Hn; simpl in *; try done; try lia.
  apply IH. lia.
Qed.

(** It finds an occurrence whenever there is one, and whatever follows a
    later occurrence also follows the one found. *)
Lemma skip_all (t : string) : skip (String.length needle) (needle +:+ t) = t.
Proof. unfold String.app. induction needle as [|c n IH]; simpl; [by destruct t|done]. Qed.

Lemma search_complete (a t : string) :
  exists before u,
    search needle (a +:+ needle +:+ t) = Some (before, u +:+ t).
Proof.
  induction a as [|x a IH]; rewrite search_unfold.
  - change ("" +:+ needle +:+ t) with (needle +:+ t).
    exists "", "". by rewrite prefix_app, skip_all.
  - destruct (String.prefix needle _) eqn:Hp.
    + exists "", (skip (String.length needle) (String x a +:+ needle)).
      f_equal. f_equal.
      rewrite <- string_app_assoc. apply skip_app.
      rewrite string_app_length. simpl. lia.
    + change (String x a +:+ needle +:+ t) with (String x (a +:+ needle +:+ t)).
      destruct IH as (before & u & ->). by exists (String x before), u.
Qed.

End Search.

(** What [match_fence] captures stands between the leftmost opening fence
    and the first closing fence after it. *)
Lemma match_fence_captures (content captured : string) :
  match_fence content = Some captured ->
  exists a c,
    content = a +:+ fence_open +:+ captured +:+ fence_close +:+ c /\
    (forall a' c', content = a' +:+ fence_open +:+ c' ->
                   (String.length a <= String.length a')%nat) /\
    (forall b' c', captured +:+ fence_close +:+ c = b' +:+ fence_close +:+ c' ->
                   (String.length captured <= String.length b')%nat).
Proof.
  unfold match_fence.
  destruct (search fence_open content) as [[a rest]|] eqn:Ho; [|done].
  destruct (search fence_close rest) as [[b c]|] eqn:Hc; [|done].
  intros [= <-]. exists a, c.
  pose proof (search_sound _ _ _ _ Hc) as Hrest.
  split; [|split].
  - rewrite <- Hrest. by apply search_sound.
  - intros a' c' Hcontent. by eapply search_leftmost.
  - intros b' c' Heq. rewrite <- Hrest in Heq. by eapply search_leftmost.
Qed.

Lemma match_fence_is_Some (content : string) :
  is_Some (match_fence content) <-> fenced content.
Proof.
  split.
  - intros [captured (a & c & -> & _)%match_fence_captures]. by exists a, captured, c.
  - intros (a & b & c & ->). unfold match_fence.
    destruct (search_complete fence_open a (b +:+ fence_close +:+ c))
      as (before & u & ->).
    rewrite <- string_app_assoc.
    destruct (search_complete fence_close (u +:+ b) c) as (captured & u' & ->).
    by eexists.
Qed.

Lemma match_fence_None (content : string) :
  match_fence content = None <-> ~ fenced content.
Proof.
  rewrite <- match_fence_is_Some, <- eq_None_not_Some. done.
Qed.

Example match_fence_example :
  match_fence ("Voici: " +:+ fence_open +:+ "{}" +:+ fence_close +:+ " fin") = Some "{}".
Proof. reflexivity. Qed.

(** The two fences do not share their newline. *)
Example match_fence_needs_two_newlines :
  match_fence ("```json" +:+ newline +:+ "```") = None.
Proof. reflexivity. Qed.

(** ** Generation *)

Lemma lookup_assign_eq (k : string) (v : value) (props : list (string * value)) :
  lookup_prop k (assign_prop k v props) = Some v.
Proof.
  induction props as [|[k' v'] props IH]; simpl.
  - by rewrite String.eqb_refl.
  - destruct (String.eqb k k') eqn:Hk; simpl; rewrite ?String.eqb_refl, ?Hk; done.
Qed.

Lemma lookup_assign_ne (k k' : string) (v : value) (props : list (string * value)) :
  k <> k' -> lookup_prop k (assign_prop k' v props) = lookup_prop k props.
Proof.
  intros Hne. induction props as [|[k2 v2] props IH]; simpl.
  - by apply String.eqb_neq in Hne as ->.
  - destruct (String.eqb k' k2) eqn:Hk; simpl.
    + apply String.eqb_eq in Hk as <-. by apply String.eqb_neq in Hne as ->.
    + by rewrite IH.
Qed.

Section GenerationFacts.

Variable JSON_parse : string -> result value.
Variable fetched : result Response.
Variable now : nat -> Z.

Lemma quiz_of_json_by_cases (jsonContent : string) :
  quiz_of_json JSON_parse now jsonContent = quiz_of_json_cases JSON_parse now jsonContent.
Proof.
  unfold quiz_of_json, quiz_of_json_cases.
  destruct (JSON_parse jsonContent) as [[| | | | | |props]|]; try reflexivity.
  simpl. destruct (lookup_prop "questions" props) as [[| | | | |qs|]|] eqn:Hq;
    try reflexivity.
  simpl. rewrite lookup_assign_eq, lookup_assign_ne by done. simpl.
  fold (stamp now qs).
  by destruct (truthy (default VUndefined (lookup_prop "title" props))).
Qed.

Lemma generateQuizWithGPT_replied (gptToken pdfText : string)
    (quizParams : QuizParams) (content : string) :
  gptToken <> "" ->
  replied fetched (VStr content) ->
  generateQuizWithGPT JSON_parse fetched now gptToken pdfText quizParams
  = match match_fence content with
    | None => ([ConsoleLog], Throw msg_invalid_format)
    | Some jsonContent =>
        (ConsoleLog :: fst (quiz_of_json_cases JSON_parse now jsonContent),
         snd (quiz_of_json_cases JSON_parse now jsonContent))
    end.
Proof.
  intros Htoken (response & data & choices & choice & message &
                 -> & Hok & Hdata & Hchoices & Hchoice & Hmessage & Hcontent).
  unfold generateQuizWithGPT. simpl.
  apply String.eqb_neq in Htoken as ->. simpl.
  rewrite Hok, Hdata. simpl.
  rewrite Hchoices. simpl. rewrite Hchoice. simpl.
  rewrite Hmessage. simpl. rewrite Hcontent. simpl.
  destruct (match_fence content) as [jsonContent|]; [|reflexivity].
  rewrite quiz_of_json_by_cases.
  by destruct (quiz_of_json_cases JSON_parse now jsonContent).
Qed.

Lemma quiz_of_json_cases_not_invalid_format (jsonContent : string) :
  snd (quiz_of_json_cases JSON_parse now jsonContent) <> Throw msg_invalid_format.
Proof.
  unfold quiz_of_json_cases.
  repeat case_match; simpl; discriminate.
Qed.

End GenerationFacts.

(** *** The missing-fence error *)

(** C6. Once the endpoint has answered with a reply content, the JSON text
    is what the pattern [```json\n([\s\S]*?)\n```] captures (the text between
    the leftmost opening fence and the first closing fence after it), and
    the function throws 'Format de réponse GPT invalide' exactly when the
    content has no substring that the pattern matches. *)
Theorem invalid_format_iff_no_fence
    (JSON_parse : string -> result value) (fetched : result Response) (now : nat -> Z)
    (gptToken pdfText : string) (quizParams : QuizParams) (content : string) :
  gptToken <> "" ->
  replied fetched (VStr content) ->
  (snd (generateQuizWithGPT JSON_parse fetched now gptToken pdfText quizParams)
     = Throw msg_invalid_format
   <-> ~ fenced content) /\
  (fenced content ->
   exists a captured c,
     content = a +:+ fence_open +:+ captured +:+ fence_close +:+ c /\
     (forall a' c', content = a' +:+ fence_open +:+ c' ->
                    (String.length a <= String.length a')%nat) /\
     (forall b' c', captured +:+ fence_close +:+ c = b' +:+ fence_close +:+ c' ->
                    (String.length captured <= String.length b')%nat) /\
     generateQuizWithGPT JSON_parse fetched now gptToken pdfText quizParams
     = (ConsoleLog :: fst (quiz_of_json JSON_parse now captured),
        snd (quiz_of_json JSON_parse now captured))).
Proof.
  intros Htoken Hreply.
  rewrite (generateQuizWithGPT_replied _ _ _ _ pdfText quizParams _ Htoken Hreply).
  split.
  - rewrite <- match_fence_None.
    destruct (match_fence content) as [jsonContent|]; simpl.
    + split; [|done]. intros H. by apply quiz_of_json_cases_not_invalid_format in H.
    + done.
  - intros [captured Hm]%match_fence_is_Some. rewrite Hm.
    destruct (match_fence_captures _ _ Hm) as (a & c & Hc & Hleft & Hlazy).
    exists a, captured, c. by rewrite quiz_of_json_by_cases.
Qed.

Lemma invalid_format_iff_no_fence_witness :
  (snd (generateQuizWithGPT sample_JSON_parse
          (Ok (reply_with (VStr (in_fence json_quiz)))) sample_clock
          "sk-test" "texte" sample_params)
     = Throw msg_invalid_format
   <-> ~ fenced (in_fence json_quiz)) /\
  (fenced (in_fence json_quiz) ->
   exists a captured c,
     in_fence json_quiz = a +:+ fence_open +:+ captured +:+ fence_close +:+ c /\
     (forall a' c', in_fence json_quiz = a' +:+ fence_open +:+ c' ->
                    (String.length a <= String.length a')%nat) /\
     (forall b' c', captured +:+ fence_close +:+ c = b' +:+ fence_close +:+ c' ->
                    (String.length captured <= String.length b')%nat) /\
     generateQuizWithGPT sample_JSON_parse
       (Ok (reply_with (VStr (in_fence json_quiz)))) sample_clock
       "sk-test" "texte" sample_params
     = (ConsoleLog :: fst (quiz_of_json sample_JSON_parse sample_clock captured),
        snd (quiz_of_json sample_JSON_parse sample_clock captured))).
Proof.
  apply (invalid_format_iff_no_fence sample_JSON_parse
           (Ok (reply_with (VStr (in_fence json_quiz)))) sample_clock
           "sk-test" "texte" sample_params (in_fence json_quiz)).
  - discriminate.
  - do 5 eexists. repeat split; reflexivity.
Defined.

Example reply_without_fence :
  generateQuizWithGPT sample_JSON_parse
    (Ok (reply_with (VStr json_quiz))) sample_clock "sk-test" "texte" sample_params
  = ([ConsoleLog], Throw msg_invalid_format).
Proof. reflexivity. Qed.

(** *** Validation of the parsed object *)

Example generation_succeeds :
  generateQuizWithGPT sample_JSON_parse
    (Ok (reply_with (VStr (in_fence json_quiz)))) sample_clock
    "sk-test" "texte" sample_params
  = ([ConsoleLog],
     Ok (VObj [("title", VStr "Quiz");
               ("questions",
                VArr [VObj [("id", VStr "question-0-1700000000000"); ("title", VStr "Q")];
                      VObj [("id", VStr "question-1-1700000000000"); ("title", VStr "R")]])])).
Proof. vm_compute. reflexivity. Qed.

(** C3, at the failing input.  The sequence of questions is absent from the
    parsed object: re-stamping, which runs before the validation and inside
    the [try], throws, and the error reported is the one for malformed JSON;
    the check for a missing [questions] field is never reached. *)
Theorem absent_questions_reported_as_malformed :
  sample_JSON_parse json_title_only = Ok (VObj [("title", VStr "Quiz")]) /\
  generateQuizWithGPT sample_JSON_parse
    (Ok (reply_with (VStr (in_fence json_title_only)))) sample_clock
    "sk-test" "texte" sample_params
  = ([ConsoleLog; ConsoleError "Erreur de parsing JSON:"], Throw msg_malformed) /\
  msg_malformed <> msg_missing_fields.
Proof. split; [reflexivity|]. split; [reflexivity|discriminate]. Qed.

(** Whatever the parsed value, if its [questions] is not an array the
    malformed-JSON error is thrown, and the missing-fields error is thrown
    exactly when [questions] is an array and [title] is falsy. *)
Lemma missing_fields_iff
    (JSON_parse : string -> result value) (now : nat -> Z) (jsonContent : string) :
  snd (quiz_of_json JSON_parse now jsonContent) = Throw msg_missing_fields <->
  exists quiz qs title,
    JSON_parse jsonContent = Ok quiz /\
    get quiz "questions" = Ok (VArr qs) /\
    get quiz "title" = Ok title /\ truthy title = false.
Proof.
  rewrite quiz_of_json_by_cases. unfold quiz_of_json_cases. split.
  - destruct (JSON_parse jsonContent) as [[| | | | | |props]|]; try discriminate.
    destruct (lookup_prop "questions" props) as [[| | | | |qs|]|] eqn:Hq;
      try discriminate.
    destruct (truthy _) eqn:Ht; [discriminate|]. intros _.
    exists (VObj props), qs, (default VUndefined (lookup_prop "title" props)).
    simpl. by rewrite Hq.
  - intros (quiz & qs & title & -> & Hq & Ht & Hfalsy).
    destruct quiz as [| | | | | |props]; try discriminate.
    simpl in Hq, Ht. injection Ht as <-.
    destruct (lookup_prop "questions" props) as [v|]; [|discriminate].
    simpl in Hq. injection Hq as ->. by rewrite Hfalsy.
Qed.

(** C9, at the failing input.  The title is the empty string and the
    sequence of questions is absent: as for C3, re-stamping throws inside
    the [try] before the validation is reached, so the falsiness test of
    the title never runs and the error reported is the one for malformed
    JSON, not the one for missing fields. *)
Theorem empty_title_without_questions_is_malformed :
  sample_JSON_parse json_empty_title_only = Ok (VObj [("title", VStr "")]) /\
  snd (generateQuizWithGPT sample_JSON_parse
         (Ok (reply_with (VStr (in_fence json_empty_title_only)))) sample_clock
         "sk-test" "texte" sample_params)
  = Throw msg_malformed /\
  snd (generateQuizWithGPT sample_JSON_parse
         (Ok (reply_with (VStr (in_fence json_empty_title_only)))) sample_clock
         "sk-test" "texte" sample_params)
  <> Throw msg_missing_fields.
Proof. split; [reflexivity|]. split; [reflexivity|discriminate]. Qed.

(** Where the validation is reached, that is when [questions] is an array,
    a parsed response whose [title] is the empty string is rejected with the
    missing-fields error: the validation tests the title for falsiness, not
    for presence. *)
Theorem empty_title_rejected
    (JSON_parse : string -> result value) (fetched : result Response) (now : nat -> Z)
    (gptToken pdfText : string) (quizParams : QuizParams)
    (content jsonContent : string) (quiz : value) (qs : list value) :
  gptToken <> "" ->
  replied fetched (VStr content) ->
  match_fence content = Some jsonContent ->
  JSON_parse jsonContent = Ok quiz ->
  get quiz "title" = Ok (VStr "") ->
  get quiz "questions" = Ok (VArr qs) ->
  generateQuizWithGPT JSON_parse fetched now gptToken pdfText quizParams
  = ([ConsoleLog], Throw msg_missing_fields).
Proof.
  intros Htoken Hreply Hm Hparse Htitle Hqs.
  rewrite (generateQuizWithGPT_replied _ _ _ _ pdfText quizParams _ Htoken Hreply), Hm.
  unfold quiz_of_json_cases. rewrite Hparse.
  destruct quiz as [| | | | | |props]; try discriminate.
  simpl in Htitle, Hqs. injection Htitle as Htitle. injection Hqs as Hqs.
  destruct (lookup_prop "questions" props) as [v|]; [|discriminate].
  simpl in Hqs. subst v. rewrite Htitle. reflexivity.
Qed.

Lemma empty_title_rejected_witness :
  generateQuizWithGPT sample_JSON_parse
    (Ok (reply_with (VStr (in_fence json_empty_title)))) sample_clock
    "sk-test" "texte" sample_params
  = ([ConsoleLog], Throw msg_missing_fields).
Proof.
  apply (empty_title_rejected sample_JSON_parse
           (Ok (reply_with (VStr (in_fence json_empty_title)))) sample_clock
           "sk-test" "texte" sample_params
           (in_fence json_empty_title) json_empty_title
           (VObj [("title", VStr "");
                  ("questions", VArr [VObj [("id", VNum 1); ("title", VStr "Q")]])])
           [VObj [("id", VNum 1); ("title", VStr "Q")]]).
  - discriminate.
  - do 5 eexists. repeat split; reflexivity.
  - reflexivity.
  - reflexivity.
  - reflexivity.
  - reflexivity.
Defined.

(** ** The question-count field *)

Lemma digits_value_nonneg (ds : list nat) : 0 <= digits_value ds.
Proof.
  unfold digits_value.
  assert (H : forall acc, 0 <= acc ->
            0 <= fold_left (fun acc d => 10 * acc + Z.of_nat d) ds acc).
  { induction ds as [|d ds IH]; intros acc Hacc; simpl; [done|]. apply IH. lia. }
  by apply H.
Qed.

(** The sign is 1 or -1, and -1 comes from a minus sign. *)
Lemma sign_and_digits_sign (input : string) (sign : Z) (ds : list nat) :
  sign_and_digits input = (sign, ds) ->
  sign = 1 \/ (sign = -1 /\ exists rest, trimStart input = String "-"%char rest).
Proof.
  unfold sign_and_digits.
  destruct (trimStart input) as [|c rest] eqn:Ht; [intros [= <- _]; by left|].
  destruct (ascii_dec c "-"%char) as [->|Hc].
  - intros [= <- _]. right. split; [done|by eexists].
  - intros Hp. left.
    destruct c as [[] [] [] [] [] [] [] []]; try congruence.
Qed.

Lemma zero_past_20_small (fuel : nat) (n : Z) :
  n < 10 ^ 20 -> zero_past_20 fuel n = n.
Proof.
  intros Hn. destruct fuel; simpl; by destruct (Z.ltb_spec n (10 ^ 20)); try lia.
Qed.

Lemma zero_past_20_pos (fuel : nat) (n : Z) :
  0 < n -> 0 < zero_past_20 fuel n <= n.
Proof.
  revert n. induction fuel as [|fuel IH]; intros n Hn; simpl;
    destruct (Z.ltb_spec n (10 ^ 20)) as [Hlt|Hge]; try lia.
  assert (Hdiv : 0 < n / 10).
  { apply Z.div_str_pos. change (10 ^ 20) with 100000000000000000000 in Hge. lia. }
  specialize (IH _ Hdiv).
  pose proof (Z.mul_div_le n 10). lia.
Qed.

Lemma round_to_double_small (n : Z) :
  Z.abs n < 2 ^ 53 -> round_to_double n = Finite n.
Proof.
  intros Hn. unfold round_to_double. by destruct (Z.ltb_spec (Z.abs n) (2 ^ 53)); try lia.
Qed.


(** [parseInt] gives [NaN] where no integer can be read, and below [10^20]
    the Number value for the integer that is read. *)
Lemma parseInt_leading_integer (approximates : bool) (input : string) :
  match leading_integer input with
  | None => parseInt approximates input = NaN
  | Some n =>
      (Z.abs n < 10 ^ 20 \/ approximates = false ->
       parseInt approximates input = round_to_double n) /\
      exists m, parseInt approximates input = round_to_double m /\
                Z.sgn m = Z.sgn n /\ Z.abs m <= Z.abs n
  end.
Proof.
  unfold leading_integer, parseInt.
  destruct (sign_and_digits input) as [sign ds] eqn:Hsd.
  apply sign_and_digits_sign in Hsd.
  pose proof (digits_value_nonneg ds) as Hnonneg.
  destruct ds as [|d ds]; [done|].
  set (v := digits_value (d :: ds)) in *.
  set (fuel := length (d :: ds)). clearbody v fuel.
  split.
  - intros [Hsmall| ->]; [|done].
    destruct approximates; [|done].
    rewrite zero_past_20_small; [done|]. destruct Hsd as [->|[-> _]]; lia.
  - destruct approximates; [|by eexists].
    eexists. split; [done|].
    destruct (decide (v = 0)) as [->|Hv].
    + rewrite zero_past_20_small by done. done.
    + pose proof (zero_past_20_pos fuel v) as Hzp.
      destruct Hsd as [->|[-> _]]; lia.
Qed.

Example parseInt_examples (approximates : bool) :
  parseInt approximates "12" = Finite 12 /\
  parseInt approximates "  42abc" = Finite 42 /\
  parseInt approximates "-3" = Finite (-3) /\
  parseInt approximates "+7.9" = Finite 7 /\
  parseInt approximates "1e5" = Finite 1 /\
  parseInt approximates "0" = Finite 0 /\
  parseInt approximates "-0" = Finite 0 /\
  parseInt approximates "" = NaN /\
  parseInt approximates "abc" = NaN /\
  parseInt approximates "-" = NaN /\
  parseInt approximates ".5" = NaN /\
  parseInt approximates "9007199254740993" = Finite 9007199254740992 /\
  parseInt approximates "9007199254740995" = Finite 9007199254740996 /\
  parseInt approximates "1e+21" = Finite 1.
Proof. destruct approximates; repeat split; vm_compute; reflexivity. Qed.

(** Past twenty digits the two kinds of engine may differ; both round. *)
Example parseInt_long_numerals :
  parseInt false "147573952589676412929" = Finite 147573952589676412928 /\
  parseInt true "147573952589676412929" = Finite 147573952589676412928 /\
  parseInt false "200000000000000000000000000000000000000000000000000000000000000000000000000000000000000000000000000000000000000000000000000000000000000000000000000000000000000000000000000000000000000000000000000000000000000000000000000000000000000000000000000000000000000000000000000000000000000000000000000000000000000000000"
  = Infinity false /\
  parseInt true "-200000000000000000000000000000000000000000000000000000000000000000000000000000000000000000000000000000000000000000000000000000000000000000000000000000000000000000000000000000000000000000000000000000000000000000000000000000000000000000000000000000000000000000000000000000000000000000000000000000000000000000000"
  = Infinity true.
Proof. repeat split; vm_compute; reflexivity. Qed.




(** ** Failures and the state *)

Section Failures.

Variable getDocument : list Byte.byte -> result PDFDocument.
Variable JSON_parse : string -> result value.

Local Arguments generateQuizWithGPT : simpl never.
Local Arguments parsePdf : simpl never.

(** C1, amended.  A failed operation ends with an alert and leaves the PDF
    text, the questions, the quiz title, the parameters and the token as
    they were.  A failed generation leaves the PDF name as well; a failed
    upload has already set it to the name of the chosen file. *)
Theorem failure_leaves_state (op : Operation) (st : State) :
  fails getDocument JSON_parse op st ->
  pdfText (snd (perform getDocument JSON_parse op st)) = pdfText st /\
  questions (snd (perform getDocument JSON_parse op st)) = questions st /\
  quizTitle (snd (perform getDocument JSON_parse op st)) = quizTitle st /\
  quizParams (snd (perform getDocument JSON_parse op st)) = quizParams st /\
  gptToken (snd (perform getDocument JSON_parse op st)) = gptToken st /\
  pdfName (snd (perform getDocument JSON_parse op st))
    = match op with
      | Upload file => name file
      | Generate _ _ => pdfName st
      end /\
  exists msg, Alert msg ∈ fst (perform getDocument JSON_parse op st).
Proof.
  destruct op as [file|fetched now]; simpl.
  - intros [err Herr]. unfold handlePdfUpload.
    destruct (parsePdf getDocument file) as [log [text|e]]; [discriminate|].
    simpl. repeat split. exists msg_unreadable_pdf.
    rewrite elem_of_cons, elem_of_app, list_elem_of_singleton. auto.
  - intros Hfail. unfold generateQuiz, truthy.
    destruct (String.eqb_spec (gptToken st) "") as [Htok|Htok]; simpl.
    { repeat split. exists msg_need_token_and_pdf. by apply list_elem_of_singleton. }
    destruct (String.eqb_spec (pdfText st) "") as [Htxt|Htxt]; simpl.
    { repeat split. exists msg_need_token_and_pdf. by apply list_elem_of_singleton. }
    destruct Hfail as [?|[?|[err Herr]]]; [done|done|].
    destruct (generateQuizWithGPT JSON_parse fetched now _ _ _) as [log [quiz|e]];
      [discriminate|].
    simpl. repeat split. exists e.
    rewrite elem_of_app, list_elem_of_singleton. auto.
Qed.

End Failures.

(** C1, as stated, fails: a PDF that cannot be read changes [pdfName]. *)
Lemma failed_upload_changes_pdfName :
  (exists err, snd (parsePdf (fun _ => Ok sample_pdf) unreadable_file) = Throw err) /\
  pdfName initial = "" /\
  pdfName (snd (handlePdfUpload (fun _ => Ok sample_pdf) (Some unreadable_file) initial))
  = "notes.pdf" /\
  pdfName (snd (handlePdfUpload (fun _ => Ok sample_pdf) (Some unreadable_file) initial))
  <> pdfName initial.
Proof.
  split; [by eexists|]. split; [reflexivity|]. split; [reflexivity|discriminate].
Qed.

Lemma failure_leaves_state_witness :
  pdfText (snd (perform (fun _ => Ok sample_pdf) sample_JSON_parse
                  (Upload unreadable_file) initial)) = "" /\
  questions (snd (perform (fun _ => Ok sample_pdf) sample_JSON_parse
                    (Upload unreadable_file) initial)) = [] /\
  quizTitle (snd (perform (fun _ => Ok sample_pdf) sample_JSON_parse
                    (Upload unreadable_file) initial)) = quizTitle initial /\
  quizParams (snd (perform (fun _ => Ok sample_pdf) sample_JSON_parse
                     (Upload unreadable_file) initial)) = quizParams initial /\
  gptToken (snd (perform (fun _ => Ok sample_pdf) sample_JSON_parse
                   (Upload unreadable_file) initial)) = "" /\
  pdfName (snd (perform (fun _ => Ok sample_pdf) sample_JSON_parse
                  (Upload unreadable_file) initial)) = "notes.pdf" /\
  exists msg, Alert msg ∈ fst (perform (fun _ => Ok sample_pdf) sample_JSON_parse
                                (Upload unreadable_file) initial).
Proof.
  apply (failure_leaves_state (fun _ => Ok sample_pdf) sample_JSON_parse
           (Upload unreadable_file) initial).
  simpl. eexists. reflexivity.
Defined.

(** ** Identifiers *)

(** *** Stamped identifiers differ *)

Lemma pretty_N_go_no_dash (x : N) (s : string) :
  no_dash s -> no_dash (pretty_N_go x s).
Proof.
  revert s. induction (N.lt_wf_0 x) as [x _ IH]; intros s Hs.
  destruct (decide (x = 0)%N) as [->|Hx].
  - by rewrite pretty_N_go_0.
  - rewrite pretty_N_go_step by lia. apply IH.
    + apply N.div_lt; lia.
    + split; [|done]. unfold pretty_N_char. by repeat case_match.
Qed.

Lemma pretty_nat_no_dash (n : nat) : no_dash (pretty n).
Proof.
  unfold pretty, pretty_nat, pretty, pretty_N.
  case_decide; [by split|]. by apply pretty_N_go_no_dash.
Qed.

(** A text without dash, then a dash: the text ends where the first dash
    stands. *)
Lemma dash_delimits (a b x y : string) :
  no_dash a -> no_dash b ->
  a +:+ "-" +:+ x = b +:+ "-" +:+ y -> a = b.
Proof.
  unfold String.app. revert b.
  induction a as [|c a IH]; intros [|d b]; simpl; intros Ha Hb Heq.
  - done.
  - injection Heq as <- _. by destruct Hb.
  - injection Heq as -> _. by destruct Ha.
  - injection Heq as -> Heq. f_equal. apply IH; tauto.
Qed.

Lemma stamped_id_inj (i j : nat) (t t' : Z) :
  stamped_id i t = stamped_id j t' -> i = j.
Proof.
  unfold stamped_id. intros Heq%(inj (String.app "question-")).
  apply dash_delimits in Heq; auto using pretty_nat_no_dash.
  by apply (inj pretty) in Heq.
Qed.

(** *** The invariant *)

Lemma question_ids_stamp (now : nat -> Z) (qs : list value) :
  question_ids (stamp now qs)
  = imap (fun index _ => Ok (VStr (stamped_id index (now index)))) qs.
Proof.
  unfold question_ids, stamp. rewrite fmap_imap. apply imap_ext.
  intros i q _. simpl. by rewrite lookup_assign_eq.
Qed.

Lemma distinct_ids_stamp (now : nat -> Z) (qs : list value) :
  distinct_ids (stamp now qs).
Proof.
  unfold distinct_ids. rewrite question_ids_stamp. split.
  - apply Forall_forall. intros r [i [q [-> _]]]%elem_of_lookup_imap. by eexists.
  - apply NoDup_alt. intros i j r.
    rewrite !list_lookup_imap.
    destruct (qs !! i); [|done]. destruct (qs !! j); [|done]. simpl.
    intros [= <-] Heq.
    assert (Hid : stamped_id j (now j) = stamped_id i (now i)) by congruence.
    symmetry. by eapply stamped_id_inj.
Qed.

Lemma distinct_ids_Permutation (qs qs' : list value) :
  qs ≡ₚ qs' -> distinct_ids qs -> distinct_ids qs'.
Proof. unfold distinct_ids, question_ids. by intros ->. Qed.

(** *** Each operation keeps the identifiers distinct *)

Lemma distinct_ids_add (qs : list value) (now : Z) (random36 : string) (st : State) :
  questions st = qs ->
  distinct_ids qs ->
  Ok (VStr (fresh_id now random36)) ∉ question_ids qs ->
  distinct_ids (questions (addQuestion now random36 st)).
Proof.
  intros <- [Hstr Hnodup] Hfresh. unfold distinct_ids, question_ids in *. simpl.
  rewrite fmap_app. simpl. split.
  - apply Forall_app. split; [done|]. apply Forall_singleton. by eexists.
  - apply NoDup_app. split; [done|]. split; [|apply NoDup_singleton].
    intros r Hr ->%list_elem_of_singleton. done.
Qed.

Lemma filter_questions_ids (id : string) (qs : list value) :
  Forall is_string_id (question_ids qs) ->
  exists qs',
    filter_questions
      (fun q => match get q "id" with
                | Ok v => Ok (negb (is_string v id))
                | Throw e => Throw e
                end) qs = Ok qs' /\
    question_ids qs' `sublist_of` question_ids qs.
Proof.
  induction qs as [|q qs IH]; simpl; intros Hstr.
  - exists []. split; [done|]. constructor.
  - apply Forall_cons in Hstr as [[s Hs] Hrest].
    destruct (IH Hrest) as (qs' & -> & Hsub). rewrite Hs.
    destruct (negb (is_string (VStr s) id)); eexists; (split; [done|]).
    + simpl. rewrite Hs. by constructor.
    + by constructor.
Qed.

Lemma map_questions_ids (id field : string) (x : value) (qs : list value) :
  field <> "id" ->
  Forall is_string_id (question_ids qs) ->
  exists qs',
    map_questions
      (fun q => match get q "id" with
                | Ok v => Ok (if is_string v id
                              then VObj (assign_prop field x (spread q))
                              else q)
                | Throw e => Throw e
                end) qs = Ok qs' /\
    question_ids qs' = question_ids qs.
Proof.
  intros Hfield. induction qs as [|q qs IH]; simpl; intros Hstr.
  - by exists [].
  - apply Forall_cons in Hstr as [[s Hs] Hrest].
    destruct (IH Hrest) as (qs' & -> & Hids). rewrite Hs.
    eexists. split; [done|]. unfold question_ids in *.
    rewrite !fmap_cons, Hids. f_equal.
    destruct (is_string (VStr s) id); [|done].
    destruct q as [| | | | | |props]; try discriminate.
    cbn [get spread] in *. rewrite lookup_assign_ne; [done|]. by intros <-.
Qed.

Lemma distinct_ids_sublist (qs qs' : list value) :
  question_ids qs' `sublist_of` question_ids qs ->
  distinct_ids qs -> distinct_ids qs'.
Proof.
  intros Hsub [Hstr Hnodup]. split.
  - apply Forall_forall. intros r Hr.
    eapply Forall_forall in Hstr; [done|]. by eapply elem_of_sublist.
  - by eapply sublist_NoDup.
Qed.

Lemma onDragEnd_Permutation (result : DropResult) (st : State) :
  match destination result with
  | None => True
  | Some dest =>
      0 <= index (source result) < Z.of_nat (length (questions st)) /\
      0 <= index dest < Z.of_nat (length (questions st))
  end ->
  questions (onDragEnd result st) ≡ₚ questions st.
Proof.
  destruct (destination result) as [dest|] eqn:Hd.
  - intros [Hs He]. rewrite (onDragEnd_reorder _ _ _ Hd). simpl.
    destruct (lookup_lt_is_Some_2 (questions st) (Z.to_nat (index (source result))))
      as [x Hx]; [lia|].
    rewrite <- (Z2Nat.id (index (source result))), <- (Z2Nat.id (index dest)) by lia.
    rewrite (reorder_in_bounds _ _ _ x), insert_at_Permutation by (done || lia).
    symmetry. by apply delete_Permutation.
  - intros _. unfold onDragEnd. by rewrite Hd.
Qed.

Section GenerationResult.

Variable JSON_parse : string -> result value.
Variable fetched : result Response.
Variable now : nat -> Z.

Local Arguments quiz_of_json : simpl never.

Lemma quiz_of_json_cases_Ok (jsonContent : string) (quiz : value) :
  snd (quiz_of_json_cases JSON_parse now jsonContent) = Ok quiz ->
  exists props qs title,
    quiz = VObj (assign_prop "questions" (VArr (stamp now qs)) props) /\
    lookup_prop "title" props = Some title /\ truthy title = true.
Proof.
  unfold quiz_of_json_cases.
  destruct (JSON_parse jsonContent) as [[| | | | | |props]|]; try discriminate.
  destruct (lookup_prop "questions" props) as [[| | | | |qs|]|]; try discriminate.
  destruct (lookup_prop "title" props) as [title|] eqn:Ht; [|discriminate].
  simpl. destruct (truthy title) eqn:Htruthy; [|discriminate].
  intros [= <-]. by exists props, qs, title.
Qed.

Lemma generateQuizWithGPT_Ok (gptToken pdfText : string) (quizParams : QuizParams)
    (quiz : value) :
  snd (generateQuizWithGPT JSON_parse fetched now gptToken pdfText quizParams) = Ok quiz ->
  exists jsonContent, snd (quiz_of_json_cases JSON_parse now jsonContent) = Ok quiz.
Proof.
  unfold generateQuizWithGPT.
  destruct (negb (truthy (VStr gptToken))); [discriminate|].
  destruct fetched as [response|]; [|discriminate]. simpl.
  destruct (negb (ok response)); [discriminate|].
  destruct (json response) as [data|]; [|discriminate]. simpl.
  destruct (get data "choices") as [choices|]; [|discriminate]. simpl.
  destruct (get_index choices 0) as [choice|]; [|discriminate]. simpl.
  destruct (get choice "message") as [message|]; [|discriminate]. simpl.
  destruct (get message "content") as [content|]; [|discriminate]. simpl.
  destruct (string_match content) as [[jsonContent|]|]; try discriminate. simpl.
  rewrite quiz_of_json_by_cases.
  destruct (quiz_of_json_cases JSON_parse now jsonContent) as [log r] eqn:Hq.
  simpl. intros ->. exists jsonContent. by rewrite Hq.
Qed.

Local Arguments generateQuizWithGPT : simpl never.

(** A generation either leaves the list or replaces it with re-stamped
    questions. *)
Lemma generateQuiz_questions (st : State) :
  questions (snd (generateQuiz JSON_parse fetched now st)) = questions st \/
  exists qs, questions (snd (generateQuiz JSON_parse fetched now st)) = stamp now qs.
Proof.
  unfold generateQuiz.
  destruct (negb (truthy (VStr (gptToken st))) || negb (truthy (VStr (pdfText st))));
    [by left|].
  simpl.
  destruct (generateQuizWithGPT JSON_parse fetched now (gptToken st) (pdfText st)
              (quizParams st)) as [log [quiz|err]] eqn:Hg; simpl; [|by left].
  assert (Hquiz : snd (generateQuizWithGPT JSON_parse fetched now (gptToken st)
                         (pdfText st) (quizParams st)) = Ok quiz) by (by rewrite Hg).
  apply generateQuizWithGPT_Ok in Hquiz as [jsonContent Hquiz].
  apply quiz_of_json_cases_Ok in Hquiz as (props & qs & title & -> & Ht & _).
  simpl. rewrite lookup_assign_eq. simpl. right. by exists qs.
Qed.

End GenerationResult.

Section Invariant.

Variable JSON_parse : string -> result value.

Lemma handle_keeps_distinct_ids (ev : Event) (st : State) :
  distinct_ids (questions st) ->
  expected ev st ->
  exists st', handle JSON_parse ev st = Ok st' /\ distinct_ids (questions st').
Proof.
  intros Hinv Hexp. destruct ev as [now r|id|id t|id d|id ty|res|fetched now]; simpl.
  - eexists. split; [done|]. by eapply distinct_ids_add.
  - unfold removeQuestion.
    destruct (filter_questions_ids id (questions st)) as (qs' & -> & Hsub);
      [apply Hinv|].
    eexists. split; [done|]. by eapply distinct_ids_sublist.
  - unfold editQuestion.
    destruct (map_questions_ids id "title" (VStr t) (questions st)) as (qs' & -> & Hids);
      [done|apply Hinv|].
    eexists. split; [done|]. unfold distinct_ids. simpl. by rewrite Hids.
  - unfold editQuestion.
    destruct (map_questions_ids id "description" (VStr d) (questions st))
      as (qs' & -> & Hids); [done|apply Hinv|].
    eexists. split; [done|]. unfold distinct_ids. simpl. by rewrite Hids.
  - unfold editQuestion.
    destruct (map_questions_ids id "type" (VStr (type_name ty)) (questions st))
      as (qs' & -> & Hids); [done|apply Hinv|].
    eexists. split; [done|]. unfold distinct_ids. simpl. by rewrite Hids.
  - eexists. split; [done|].
    eapply distinct_ids_Permutation; [|done].
    symmetry. by apply onDragEnd_Permutation.
  - eexists. split; [done|].
    destruct (generateQuiz_questions JSON_parse fetched now st) as [->|[qs ->]];
      [done|apply distinct_ids_stamp].
Qed.

Lemma run_keeps_distinct_ids (evs : list Event) (st : State) :
  distinct_ids (questions st) ->
  all_expected JSON_parse evs st ->
  exists st', run JSON_parse evs st = Ok st' /\ distinct_ids (questions st').
Proof.
  revert st. induction evs as [|ev evs IH]; intros st Hinv; simpl.
  - intros _. by exists st.
  - intros [Hexp Hrest].
    destruct (handle_keeps_distinct_ids ev st Hinv Hexp) as (st1 & Hst1 & Hinv1).
    rewrite Hst1 in *. by apply IH.
Qed.

(** C2, amended.  Starting from the empty list, after any sequence of manual
    adds, deletes, field edits, reorders and generations, the sequence runs
    to its end and the identifiers of the questions in the list are strings,
    pairwise distinct, provided that each reorder names positions of the
    list and that the identifier built at each manual add, from the clock
    and the random number, is not already one of the list. *)
Theorem identifiers_stay_distinct (evs : list Event) (st : State) :
  questions st = [] ->
  all_expected JSON_parse evs st ->
  exists st',
    run JSON_parse evs st = Ok st' /\
    Forall is_string_id (question_ids (questions st')) /\
    NoDup (question_ids (questions st')).
Proof.
  intros Hempty Hexp.
  destruct (run_keeps_distinct_ids evs st) as (st' & Hrun & Hstr & Hnodup);
    [|done|by exists st'].
  rewrite Hempty. split; constructor.
Qed.

End Invariant.

(** C2, as stated, fails: two manual adds within the same millisecond that
    draw the same random number give two questions the same identifier. *)
Lemma equal_clock_and_random_repeat_an_identifier :
  exists st',
    run sample_JSON_parse
      [AddClick 1700000000000 "0.4fzyo82mvyr"; AddClick 1700000000000 "0.4fzyo82mvyr"]
      initial = Ok st' /\
    question_ids (questions st')
    = [Ok (VStr "question-1700000000000-4fzyo82mv");
       Ok (VStr "question-1700000000000-4fzyo82mv")] /\
    ~ NoDup (question_ids (questions st')).
Proof.
  exists (addQuestion 1700000000000 "0.4fzyo82mvyr"
            (addQuestion 1700000000000 "0.4fzyo82mvyr" initial)).
  assert (Hids : question_ids
                   (questions
                      (addQuestion 1700000000000 "0.4fzyo82mvyr"
                         (addQuestion 1700000000000 "0.4fzyo82mvyr" initial)))
                 = [Ok (VStr "question-1700000000000-4fzyo82mv");
                    Ok (VStr "question-1700000000000-4fzyo82mv")])
    by (vm_compute; reflexivity).
  split; [reflexivity|]. split; [exact Hids|].
  rewrite Hids. intros Hnodup. apply NoDup_cons in Hnodup as [Hnotin _].
  apply Hnotin. by apply list_elem_of_singleton.
Qed.

Lemma identifiers_stay_distinct_witness :
  exists st',
    run sample_JSON_parse sample_events ready = Ok st' /\
    Forall is_string_id (question_ids (questions st')) /\
    NoDup (question_ids (questions st')).
Proof.
  apply (identifiers_stay_distinct sample_JSON_parse sample_events ready).
  - reflexivity.
  - vm_compute. repeat split; try discriminate.
    all: intros Hin; repeat (inversion Hin as [|? ? ? Hin']; clear Hin; rename Hin' into Hin).
Defined.

(** ** Two more facts about generation *)

(** Whatever the clock returns and whatever the questions are, re-stamping
    gives every question a string identifier, and no two the same: the index
    is part of the identifier. *)
Theorem restamped_identifiers_distinct (now : nat -> Z) (qs : list value) :
  Forall is_string_id (question_ids (stamp now qs)) /\
  NoDup (question_ids (stamp now qs)).
Proof. apply distinct_ids_stamp. Qed.

(** The missing-fields error is thrown exactly when the parsed value has an
    array of questions and a falsy title; the test [!Array.isArray(quiz.questions)]
    never decides. *)
Theorem missing_fields_only_for_falsy_title
    (JSON_parse : string -> result value) (now : nat -> Z) (jsonContent : string) :
  snd (quiz_of_json JSON_parse now jsonContent) = Throw msg_missing_fields <->
  exists quiz qs title,
    JSON_parse jsonContent = Ok quiz /\
    get quiz "questions" = Ok (VArr qs) /\
    get quiz "title" = Ok title /\ truthy title = false.
Proof. apply missing_fields_iff. Qed.

(** * Further properties *)

(** ** Moving a question *)

Lemma length_insert_at {A} (i : nat) (x : A) (l : list A) :
  length (insert_at i x l) = S (length l).
Proof.
  revert i; induction l as [|y l IH]; intros [|i]; simpl; auto.
Qed.

Lemma delete_insert_at {A} (i : nat) (x : A) (l : list A) :
  (i <= length l)%nat -> delete i (insert_at i x l) = l.
Proof.
  revert i; induction l as [|y l IH]; intros [|i] Hi; simpl in *; try lia; auto.
  f_equal. apply IH. lia.
Qed.

Lemma insert_at_delete {A} (i : nat) (x : A) (l : list A) :
  l !! i = Some x -> insert_at i x (delete i l) = l.
Proof.
  revert i; induction l as [|y l IH]; intros [|i] Hx; simpl in *; try done.
  - by injection Hx as ->.
  - f_equal. by apply IH.
Qed.

Lemma reorder_in_bounds_Z (l : list value) (s e : Z) (x : value) :
  0 <= s -> 0 <= e < Z.of_nat (length l) ->
  l !! Z.to_nat s = Some x ->
  reorder l s e = insert_at (Z.to_nat e) x (delete (Z.to_nat s) l).
Proof.
  intros Hs He Hx.
  rewrite <- (Z2Nat.id s), <- (Z2Nat.id e) at 1 by lia.
  apply reorder_in_bounds; [done|lia].
Qed.

(** Moving a question and then moving it back, from where it landed to
    where it came from, restores the list. *)
Theorem reorder_back_restores (l : list value) (startIndex endIndex : Z) :
  0 <= startIndex < Z.of_nat (length l) ->
  0 <= endIndex < Z.of_nat (length l) ->
  reorder (reorder l startIndex endIndex) endIndex startIndex = l.
Proof.
  intros Hs He.
  destruct (lookup_lt_is_Some_2 l (Z.to_nat startIndex)) as [x Hx]; [lia|].
  assert (Hdel : (Z.to_nat endIndex <= length (delete (Z.to_nat startIndex) l))%nat).
  { rewrite length_delete by eauto. lia. }
  rewrite (reorder_in_bounds_Z l startIndex endIndex x) by (done || lia).
  rewrite (reorder_in_bounds_Z _ endIndex startIndex x).
  - rewrite delete_insert_at by done. by apply insert_at_delete.
  - lia.
  - rewrite length_insert_at, length_delete by eauto. lia.
  - by apply insert_at_lookup.
Qed.

Lemma reorder_back_restores_witness :
  reorder (reorder [VStr "a"; VStr "b"; VStr "c"; VStr "d"] 3 1) 1 3
  = [VStr "a"; VStr "b"; VStr "c"; VStr "d"].
Proof.
  apply (reorder_back_restores [VStr "a"; VStr "b"; VStr "c"; VStr "d"] 3 1);
    simpl; lia.
Defined.

(** Dropping a question at the position it was taken from changes
    nothing. *)
Theorem reorder_same_position (l : list value) (i : Z) :
  0 <= i < Z.of_nat (length l) -> reorder l i i = l.
Proof.
  intros Hi.
  destruct (lookup_lt_is_Some_2 l (Z.to_nat i)) as [x Hx]; [lia|].
  rewrite (reorder_in_bounds_Z l i i x) by (done || lia).
  by apply insert_at_delete.
Qed.

Lemma reorder_same_position_witness :
  reorder [VStr "a"; VStr "b"; VStr "c"] 1 1 = [VStr "a"; VStr "b"; VStr "c"].
Proof. apply (reorder_same_position [VStr "a"; VStr "b"; VStr "c"] 1). simpl; lia. Defined.

(** The questions other than the moved one keep their order: taking the
    moved question out of the result gives the list without it. *)
Theorem reorder_keeps_the_others (l : list value) (startIndex endIndex : Z) :
  0 <= startIndex < Z.of_nat (length l) ->
  0 <= endIndex < Z.of_nat (length l) ->
  delete (Z.to_nat endIndex) (reorder l startIndex endIndex)
  = delete (Z.to_nat startIndex) l.
Proof.
  intros Hs He.
  destruct (lookup_lt_is_Some_2 l (Z.to_nat startIndex)) as [x Hx]; [lia|].
  rewrite (reorder_in_bounds_Z l startIndex endIndex x) by (done || lia).
  apply delete_insert_at. rewrite length_delete by eauto. lia.
Qed.

Lemma reorder_keeps_the_others_witness :
  delete (Z.to_nat 0) (reorder [VStr "a"; VStr "b"; VStr "c"] 2 0)
  = delete (Z.to_nat 2) [VStr "a"; VStr "b"; VStr "c"].
Proof.
  apply (reorder_keeps_the_others [VStr "a"; VStr "b"; VStr "c"] 2 0); simpl; lia.
Defined.

Lemma reorder_past_end (l : list value) (startIndex endIndex : Z) :
  Z.of_nat (length l) <= startIndex ->
  0 <= endIndex <= Z.of_nat (length l) ->
  reorder l startIndex endIndex = insert_at (Z.to_nat endIndex) VUndefined l.
Proof.
  intros Hs He.
  assert (Hfirst : splice l startIndex 1 [] = ([], l)).
  { unfold splice; cbv zeta.
    destruct (Z.ltb_spec startIndex 0) as [?|_]; [lia|].
    replace (Z.to_nat (Z.min startIndex (Z.of_nat (length l)))) with (length l) by lia.
    replace (Z.to_nat _) with 0%nat by lia.
    rewrite drop_all, firstn_all, Nat.add_0_r, drop_all. simpl.
    by rewrite app_nil_r. }
  unfold reorder. rewrite Hfirst. cbv beta iota zeta.
  change (first_of []) with VUndefined.
  rewrite <- (Z2Nat.id endIndex) at 1 by lia.
  rewrite splice_insert_one by lia. done.
Qed.

(** A start index at or past the end removes nothing: [undefined] is what
    gets inserted, and the list grows by one. *)
Theorem reorder_start_out_of_range (l : list value) (startIndex endIndex : Z) :
  Z.of_nat (length l) <= startIndex ->
  0 <= endIndex <= Z.of_nat (length l) ->
  reorder l startIndex endIndex = insert_at (Z.to_nat endIndex) VUndefined l /\
  length (reorder l startIndex endIndex) = S (length l).
Proof.
  intros Hs He. rewrite reorder_past_end by done.
  split; [done|]. apply length_insert_at.
Qed.

Lemma reorder_start_out_of_range_witness :
  reorder [VStr "a"; VStr "b"] 5 1 = [VStr "a"; VUndefined; VStr "b"] /\
  length (reorder [VStr "a"; VStr "b"] 5 1) = 3%nat.
Proof.
  apply (reorder_start_out_of_range [VStr "a"; VStr "b"] 5 1); simpl; lia.
Defined.

(** The handler does what [reorder] does, which it does not call, and
    touches nothing but the question list. *)
Theorem onDragEnd_agrees_with_reorder
    (src dest : DraggableLocation) (st : State) :
  onDragEnd {| source := src; destination := Some dest |} st
  = setQuestions (reorder (questions st) (index src) (index dest)) st.
Proof. by apply onDragEnd_reorder. Qed.

(** ** Deleting, adding and editing questions *)

Lemma filter_questions_spec (id : string) (qs : list value) :
  Forall is_string_id (question_ids qs) ->
  exists qs',
    filter_questions (keep_others id) qs = Ok qs' /\
    qs' `sublist_of` qs /\
    (forall q, q ∈ qs' <-> q ∈ qs /\ get q "id" <> Ok (VStr id)) /\
    (Ok (VStr id) ∉ question_ids qs -> qs' = qs) /\
    (NoDup (question_ids qs) -> Ok (VStr id) ∈ question_ids qs ->
     S (length qs') = length qs).
Proof.
  induction qs as [|q qs IH]; simpl; intros Hstr.
  - exists []. split; [done|]. split; [constructor|]. split; [|split].
    + intros q. split; [by intros ?%elem_of_nil|by intros [?%elem_of_nil _]].
    + done.
    + by intros _ ?%elem_of_nil.
  - apply Forall_cons in Hstr as [[s Hs] Hrest].
    destruct (IH Hrest) as (qs' & -> & Hsub & Hmem & Hsame & Hlen). rewrite Hs.
    simpl. destruct (String.eqb_spec s id) as [->|Hne]; simpl.
    + exists qs'. split; [done|]. split; [by constructor|]. split; [|split].
      * intros q0. rewrite Hmem, elem_of_cons. split; [tauto|].
        intros [[->|Hin] Hq0]; [congruence|done].
      * intros Hnotin. exfalso. apply Hnotin. apply elem_of_cons. by left.
      * intros [Hhead Hnodup]%NoDup_cons _. by rewrite Hsame.
    + exists (q :: qs'). split; [done|]. split; [by constructor|]. split; [|split].
      * intros q0. rewrite !elem_of_cons, Hmem. split; [|tauto].
        intros [->|[Hin Hq0]]; [|tauto]. split; [by left|]. rewrite Hs. congruence.
      * intros Hnotin. f_equal. apply Hsame. intros Hin. apply Hnotin.
        apply elem_of_cons. by right.
      * intros [Hhead Hnodup]%NoDup_cons [Heq|Hin]%elem_of_cons; [congruence|].
        simpl. f_equal. by apply Hlen.
Qed.

(** [filter] keeps, in their order and as often as they stand in the list,
    the questions that do not have the identifier. *)
Lemma filter_questions_filter (id : string) (qs : list value) :
  Forall is_string_id (question_ids qs) ->
  filter_questions (keep_others id) qs
  = Ok (List.filter (fun q => negb (has_id id q)) qs).
Proof.
  induction qs as [|q qs IH]; simpl; intros Hstr; [done|].
  apply Forall_cons in Hstr as [[s Hs] Hrest].
  rewrite (IH Hrest). unfold has_id. rewrite Hs. done.
Qed.

(** With pairwise distinct identifiers, filtering out the identifier of the
    question at position [i] deletes that position. *)
Lemma filter_has_id_delete (id : string) (qs : list value) (i : nat) (q : value) :
  Forall is_string_id (question_ids qs) ->
  NoDup (question_ids qs) ->
  qs !! i = Some q -> get q "id" = Ok (VStr id) ->
  List.filter (fun q => negb (has_id id q)) qs = delete i qs.
Proof.
  revert i. induction qs as [|q0 qs IH]; intros i Hstr Hnodup Hi Hq; [done|].
  apply Forall_cons in Hstr as [[s Hs] Hrest].
  apply NoDup_cons in Hnodup as [Hhead Hnodup].
  assert (Hkeep : forall qs0 : list value,
            Ok (VStr id) ∉ question_ids qs0 ->
            Forall is_string_id (question_ids qs0) ->
            List.filter (fun q => negb (has_id id q)) qs0 = qs0).
  { clear. induction qs0 as [|q1 qs0 IH]; intros Hnotin Hstr; [done|].
    apply Forall_cons in Hstr as [[s Hs] Hrest].
    apply not_elem_of_cons in Hnotin as [Hne Hnotin].
    simpl. unfold has_id at 1. rewrite Hs. simpl.
    destruct (String.eqb_spec s id) as [->|_]; [by rewrite Hs in Hne|].
    simpl. f_equal. by apply IH. }
  destruct i as [|i]; simpl in Hi.
  - injection Hi as ->. simpl. unfold has_id at 1. rewrite Hq. simpl.
    rewrite String.eqb_refl. simpl. apply Hkeep; [|done].
    replace (Ok (VStr id)) with (get q "id"). exact Hhead.
  - simpl. unfold has_id at 1. rewrite Hs. simpl.
    destruct (String.eqb_spec s id) as [->|_].
    + exfalso. apply Hhead. rewrite Hs.
      apply list_elem_of_fmap. exists q. split; [done|].
      by eapply list_elem_of_lookup_2.
    + simpl. f_equal. by eapply IH.
Qed.

(** When every question has a string for identifier, [removeQuestion]
    stores the list filtered of the questions that have the given
    identifier: the others are kept, in their order and as often as they
    stand in the list; nothing else of the state changes. *)
Theorem removeQuestion_drops_matching (id : string) (st : State) :
  Forall is_string_id (question_ids (questions st)) ->
  exists qs',
    removeQuestion id st = Ok (setQuestions qs' st) /\
    qs' = List.filter (fun q => negb (has_id id q)) (questions st) /\
    qs' `sublist_of` questions st /\
    (forall q, q ∈ qs' <-> q ∈ questions st /\ get q "id" <> Ok (VStr id)).
Proof.
  intros Hstr. unfold removeQuestion.
  pose proof (filter_questions_filter id (questions st) Hstr) as Hfilter.
  destruct (filter_questions_spec id (questions st) Hstr)
    as (qs' & Heq & Hsub & Hmem & _).
  rewrite Heq in Hfilter. injection Hfilter as Hfilter. rewrite Heq.
  by exists qs'.
Qed.

Lemma two_questions_ids :
  question_ids (questions two_questions)
  = [Ok (VStr "question-1700000000000-4fzyo82mv");
     Ok (VStr "question-1700000000001-9k2j5x7q1")].
Proof. vm_compute. reflexivity. Qed.

Lemma two_questions_string_ids :
  Forall is_string_id (question_ids (questions two_questions)).
Proof. rewrite two_questions_ids. repeat constructor; by eexists. Qed.

Lemma two_questions_NoDup : NoDup (question_ids (questions two_questions)).
Proof.
  rewrite two_questions_ids. apply NoDup_cons. split; [|apply NoDup_singleton].
  intros Hin%list_elem_of_singleton. discriminate.
Qed.

Lemma removeQuestion_drops_matching_witness :
  exists qs',
    removeQuestion "question-1700000000000-4fzyo82mv" two_questions
    = Ok (setQuestions qs' two_questions) /\
    qs' = List.filter (fun q => negb (has_id "question-1700000000000-4fzyo82mv" q))
            (questions two_questions) /\
    qs' `sublist_of` questions two_questions /\
    (forall q, q ∈ qs' <-> q ∈ questions two_questions /\
                          get q "id" <> Ok (VStr "question-1700000000000-4fzyo82mv")).
Proof.
  apply (removeQuestion_drops_matching "question-1700000000000-4fzyo82mv" two_questions).
  apply two_questions_string_ids.
Defined.

(** With pairwise distinct identifiers, deleting the identifier of the
    question at position [i] removes that position from the list and
    touches nothing else: one question fewer; and deleting an identifier
    that is not in the list leaves the state as it is. *)
Theorem removeQuestion_removes_one (id : string) (st : State) :
  Forall is_string_id (question_ids (questions st)) ->
  NoDup (question_ids (questions st)) ->
  exists st',
    removeQuestion id st = Ok st' /\
    (forall i q, questions st !! i = Some q -> get q "id" = Ok (VStr id) ->
                 st' = setQuestions (delete i (questions st)) st) /\
    (Ok (VStr id) ∈ question_ids (questions st) ->
     S (length (questions st')) = length (questions st)) /\
    (Ok (VStr id) ∉ question_ids (questions st) -> st' = st).
Proof.
  intros Hstr Hnodup. unfold removeQuestion.
  pose proof (filter_questions_filter id (questions st) Hstr) as Hfilter.
  destruct (filter_questions_spec id (questions st) Hstr)
    as (qs' & Heq & _ & _ & Hsame & Hlen).
  rewrite Heq in Hfilter. injection Hfilter as Hfilter. rewrite Heq.
  eexists. split; [done|]. split; [|split].
  - intros i q Hi Hq. f_equal. rewrite Hfilter. by eapply filter_has_id_delete.
  - intros Hin. simpl. by apply Hlen.
  - intros Hnotin. rewrite Hsame by done. by destruct st.
Qed.

Lemma removeQuestion_removes_one_witness :
  exists st',
    removeQuestion "question-1700000000000-4fzyo82mv" two_questions = Ok st' /\
    (forall i q,
       questions two_questions !! i = Some q ->
       get q "id" = Ok (VStr "question-1700000000000-4fzyo82mv") ->
       st' = setQuestions (delete i (questions two_questions)) two_questions) /\
    (Ok (VStr "question-1700000000000-4fzyo82mv") ∈ question_ids (questions two_questions) ->
     S (length (questions st')) = length (questions two_questions)) /\
    (Ok (VStr "question-1700000000000-4fzyo82mv") ∉ question_ids (questions two_questions) ->
     st' = two_questions).
Proof.
  apply (removeQuestion_removes_one "question-1700000000000-4fzyo82mv" two_questions).
  - apply two_questions_string_ids.
  - apply two_questions_NoDup.
Defined.

Lemma filter_questions_added (now : Z) (random36 : string) (newQuestion : value)
    (qs : list value) :
  get newQuestion "id" = Ok (VStr (fresh_id now random36)) ->
  Forall is_string_id (question_ids qs) ->
  Ok (VStr (fresh_id now random36)) ∉ question_ids qs ->
  filter_questions (keep_others (fresh_id now random36)) (qs ++ [newQuestion]) = Ok qs.
Proof.
  intros Hnew. induction qs as [|q qs IH]; simpl; intros Hstr Hfresh.
  - rewrite Hnew. simpl. by rewrite String.eqb_refl.
  - apply Forall_cons in Hstr as [[s Hs] Hrest].
    simpl in Hfresh. rewrite Hs in Hfresh.
    apply not_elem_of_cons in Hfresh as [Hne Hfresh].
    rewrite Hs, IH by done. simpl.
    destruct (String.eqb_spec s (fresh_id now random36)) as [->|_]; [done|done].
Qed.

(** Adding a question and deleting it again, by the identifier it was
    given, restores the state, when that identifier was not already in the
    list. *)
Theorem add_then_remove_restores (now : Z) (random36 : string) (st : State) :
  Forall is_string_id (question_ids (questions st)) ->
  Ok (VStr (fresh_id now random36)) ∉ question_ids (questions st) ->
  removeQuestion (fresh_id now random36) (addQuestion now random36 st) = Ok st.
Proof.
  intros Hstr Hfresh. unfold removeQuestion, addQuestion. simpl.
  rewrite (filter_questions_added now random36) by done.
  by destruct st.
Qed.

Lemma add_then_remove_restores_witness :
  removeQuestion (fresh_id 1700000000002 "0.zzzzzzzzzzz")
    (addQuestion 1700000000002 "0.zzzzzzzzzzz" two_questions)
  = Ok two_questions.
Proof.
  apply (add_then_remove_restores 1700000000002 "0.zzzzzzzzzzz" two_questions).
  - apply two_questions_string_ids.
  - rewrite two_questions_ids. vm_compute.
    intros Hin; repeat (inversion Hin as [|? ? ? Hin']; clear Hin; rename Hin' into Hin).
Defined.

Lemma get_assign_eq (field : string) (x : value) (props : list (string * value)) :
  get (VObj (assign_prop field x props)) field = Ok x.
Proof. simpl. by rewrite lookup_assign_eq. Qed.

Lemma get_assign_ne (k field : string) (x : value) (props : list (string * value)) :
  k <> field ->
  get (VObj (assign_prop field x props)) k = get (VObj props) k.
Proof. intros Hne. simpl. by rewrite lookup_assign_ne. Qed.

Lemma map_questions_spec (id field : string) (x : value) (qs : list value) :
  Forall is_string_id (question_ids qs) ->
  exists qs',
    map_questions (edit_matching id field x) qs = Ok qs' /\
    length qs' = length qs /\
    forall (i : nat) (q : value),
      qs !! i = Some q ->
      exists q',
        qs' !! i = Some q' /\
        (get q "id" <> Ok (VStr id) -> q' = q) /\
        (get q "id" = Ok (VStr id) ->
         get q' field = Ok x /\ forall k, k <> field -> get q' k = get q k).
Proof.
  induction qs as [|q qs IH]; simpl; intros Hstr.
  - exists []. split; [done|]. split; [done|]. intros i q Hi. done.
  - apply Forall_cons in Hstr as [[s Hs] Hrest].
    destruct (IH Hrest) as (qs' & -> & Hlen & Hedit). rewrite Hs.
    eexists. split; [done|]. split; [simpl; by rewrite Hlen|].
    intros [|i] q0 Hi; simpl in Hi; [|by apply Hedit].
    injection Hi as <-. eexists. split; [done|]. rewrite Hs. simpl.
    destruct (String.eqb_spec s id) as [->|Hne].
    + split; [done|]. intros _.
      destruct q as [| | | | | |props]; try discriminate.
      cbn [spread]. split; [apply get_assign_eq|]. intros k Hk. by apply get_assign_ne.
    + split; [done|]. intros [= ->]. done.
Qed.

(** When every question has a string for identifier, an editor changes the
    edited field of the questions whose identifier is the given one, and
    nothing else: their other properties, the other questions, the number
    and the order of the questions and the rest of the state stay as they
    were. *)
Theorem editQuestion_changes_one_field (id field : string) (x : value) (st : State) :
  Forall is_string_id (question_ids (questions st)) ->
  exists qs',
    editQuestion id field x st = Ok (setQuestions qs' st) /\
    length qs' = length (questions st) /\
    forall (i : nat) (q : value),
      questions st !! i = Some q ->
      exists q',
        qs' !! i = Some q' /\
        (get q "id" <> Ok (VStr id) -> q' = q) /\
        (get q "id" = Ok (VStr id) ->
         get q' field = Ok x /\ forall k, k <> field -> get q' k = get q k).
Proof.
  intros Hstr. unfold editQuestion.
  destruct (map_questions_spec id field x (questions st) Hstr) as (qs' & -> & Hrest).
  by exists qs'.
Qed.

Lemma editQuestion_changes_one_field_witness :
  exists qs',
    editQuestion "question-1700000000000-4fzyo82mv" "title" (VStr "Capitale ?") two_questions
    = Ok (setQuestions qs' two_questions) /\
    length qs' = length (questions two_questions) /\
    forall (i : nat) (q : value),
      questions two_questions !! i = Some q ->
      exists q',
        qs' !! i = Some q' /\
        (get q "id" <> Ok (VStr "question-1700000000000-4fzyo82mv") -> q' = q) /\
        (get q "id" = Ok (VStr "question-1700000000000-4fzyo82mv") ->
         get q' "title" = Ok (VStr "Capitale ?") /\
         forall k, k <> "title" -> get q' k = get q k).
Proof.
  apply (editQuestion_changes_one_field "question-1700000000000-4fzyo82mv" "title"
           (VStr "Capitale ?") two_questions).
  apply two_questions_string_ids.
Defined.

Lemma assign_prop_twice (k : string) (v1 v2 : value) (props : list (string * value)) :
  assign_prop k v2 (assign_prop k v1 props) = assign_prop k v2 props.
Proof.
  induction props as [|[k' v'] props IH]; simpl.
  - by rewrite String.eqb_refl.
  - destruct (String.eqb k k') eqn:Hk; simpl; rewrite ?String.eqb_refl, ?Hk, ?IH; done.
Qed.

Lemma map_questions_twice (id field : string) (x1 x2 : value) (qs : list value) :
  field <> "id" ->
  Forall is_string_id (question_ids qs) ->
  exists qs1,
    map_questions (edit_matching id field x1) qs = Ok qs1 /\
    map_questions (edit_matching id field x2) qs1
    = map_questions (edit_matching id field x2) qs.
Proof.
  intros Hfield. induction qs as [|q qs IH]; simpl; intros Hstr.
  - by exists [].
  - apply Forall_cons in Hstr as [[s Hs] Hrest].
    destruct (IH Hrest) as (qs1 & -> & Hsecond). rewrite Hs.
    eexists. split; [done|]. simpl. rewrite Hsecond.
    destruct (String.eqb s id) eqn:Hid.
    + destruct q as [| | | | | |props]; try discriminate.
      cbn [spread get] in *. rewrite lookup_assign_ne by (by intros <-).
      injection Hs as Hs. rewrite Hs. simpl. rewrite Hid.
      by rewrite assign_prop_twice.
    + rewrite Hs. simpl. by rewrite Hid.
Qed.

(** Editing the same field of the same question twice leaves what the
    second edit alone would have left: each keystroke overwrites the
    previous one. *)
Theorem editQuestion_last_edit_wins (id field : string) (x1 x2 : value) (st : State) :
  field <> "id" ->
  Forall is_string_id (question_ids (questions st)) ->
  exists st1,
    editQuestion id field x1 st = Ok st1 /\
    editQuestion id field x2 st1 = editQuestion id field x2 st.
Proof.
  intros Hfield Hstr. unfold editQuestion.
  destruct (map_questions_twice id field x1 x2 (questions st) Hfield Hstr)
    as (qs1 & -> & Hsecond).
  eexists. split; [done|]. simpl. rewrite Hsecond.
  by destruct (map_questions _ (questions st)).
Qed.

Lemma editQuestion_last_edit_wins_witness :
  exists st1,
    editQuestion "question-1700000000000-4fzyo82mv" "title" (VStr "C") two_questions = Ok st1 /\
    editQuestion "question-1700000000000-4fzyo82mv" "title" (VStr "Ca") st1
    = editQuestion "question-1700000000000-4fzyo82mv" "title" (VStr "Ca") two_questions.
Proof.
  apply (editQuestion_last_edit_wins "question-1700000000000-4fzyo82mv" "title"
           (VStr "C") (VStr "Ca") two_questions).
  - discriminate.
  - apply two_questions_string_ids.
Defined.

(** ** Reading the PDF *)

Lemma parsePdf_loop_step (pdf : PDFDocument) (remaining i : nat) (extractedText : string) :
  parsePdf_loop pdf (S remaining) i extractedText
  = match page_result pdf (i + 1)%nat with
    | Ok tc =>
        parsePdf_loop pdf remaining (i + 1)%nat
          (extractedText +:+ trim (join " " (map str (items tc))) +:+ newline)
    | Throw e => ([], Throw e)
    end.
Proof.
  simpl. unfold page_result.
  destruct (getPage pdf (i + 1)%nat) as [page|e]; [|done]. simpl.
  destruct (getTextContent page) as [tc|e]; [|done]. simpl.
  by destruct (parsePdf_loop pdf remaining (i + 1) _).
Qed.

Lemma parsePdf_loop_fails (pdf : PDFDocument) (j : nat) :
  forall (remaining i : nat) (extractedText err : string),
    (j < remaining)%nat ->
    page_result pdf (i + j + 1)%nat = Throw err ->
    (forall j', (j' < j)%nat -> exists tc, page_result pdf (i + j' + 1)%nat = Ok tc) ->
    parsePdf_loop pdf remaining i extractedText = ([], Throw err).
Proof.
  induction j as [|j IH]; intros [|remaining] i acc err Hlt Hfail Hbefore; try lia;
    rewrite parsePdf_loop_step.
  - rewrite Nat.add_0_r in Hfail. by rewrite Hfail.
  - destruct (Hbefore 0%nat) as [tc Htc]; [lia|]. rewrite Nat.add_0_r in Htc.
    rewrite Htc. apply IH; [lia| |].
    + rewrite <- Hfail. f_equal. lia.
    + intros j' Hj'. destruct (Hbefore (S j')) as [tc' Htc']; [lia|].
      exists tc'. rewrite <- Htc'. f_equal. lia.
Qed.

Lemma parsePdf_loop_Ok (pdf : PDFDocument) (remaining : nat) :
  forall (i : nat) (extractedText : string),
    (exists log text, parsePdf_loop pdf remaining i extractedText = (log, Ok text)) <->
    (forall j, (j < remaining)%nat -> exists tc, page_result pdf (i + j + 1)%nat = Ok tc).
Proof.
  induction remaining as [|remaining IH]; intros i acc.
  - split; [intros _ j Hj; lia|]. intros _. by eexists _, _.
  - rewrite parsePdf_loop_step. split.
    + intros (log & text & Hloop) j Hj.
      destruct (page_result pdf (i + 1)%nat) as [tc|e] eqn:Htc; [|done].
      destruct j as [|j].
      * rewrite Nat.add_0_r, Htc. by exists tc.
      * assert (Hok : exists log text, parsePdf_loop pdf remaining (i + 1)
                        (acc +:+ trim (join " " (map str (items tc))) +:+ newline)
                      = (log, Ok text)) by (by eexists _, _).
        pose proof (proj1 (IH _ _) Hok) as Hrest.
        destruct (Hrest j) as [tc' Htc']; [lia|].
        exists tc'. rewrite <- Htc'. f_equal. lia.
    + intros Hall. destruct (Hall 0%nat) as [tc Htc]; [lia|].
      rewrite Nat.add_0_r in Htc. rewrite Htc.
      apply (proj2 (IH _ _)). intros j Hj. destruct (Hall (S j)) as [tc' Htc']; [lia|].
      exists tc'. rewrite <- Htc'. f_equal. lia.
Qed.

(** When a page cannot be fetched or its text cannot be read, [parsePdf]
    rejects with the error of the first such page: the text of the pages
    before it is dropped, one console error is logged and no warning. *)
Theorem parsePdf_rejects_at_first_bad_page
    (getDocument : list Byte.byte -> result PDFDocument)
    (file : File) (typedarray : list Byte.byte) (pdf : PDFDocument)
    (k : nat) (err : string) :
  readAsArrayBuffer file = Ok typedarray ->
  getDocument typedarray = Ok pdf ->
  (k < numPages pdf)%nat ->
  page_result pdf (k + 1)%nat = Throw err ->
  (forall j, (j < k)%nat -> exists tc, page_result pdf (j + 1)%nat = Ok tc) ->
  parsePdf getDocument file
  = ([ConsoleError "Erreur lors de l'extraction du texte:"], Throw err).
Proof.
  intros Hread Hdoc Hk Hfail Hbefore.
  unfold parsePdf. rewrite Hread, Hdoc. simpl.
  by rewrite (parsePdf_loop_fails pdf k (numPages pdf) 0 "" err).
Qed.

(** [parsePdf] resolves exactly when the file can be read, pdf.js parses it
    and every page from 1 to [numPages] hands out its text. *)
Theorem parsePdf_resolves_iff
    (getDocument : list Byte.byte -> result PDFDocument) (file : File) :
  (exists text, snd (parsePdf getDocument file) = Ok text) <->
  (exists typedarray pdf,
      readAsArrayBuffer file = Ok typedarray /\
      getDocument typedarray = Ok pdf /\
      forall k, (1 <= k <= numPages pdf)%nat -> exists tc, page_result pdf k = Ok tc).
Proof.
  unfold parsePdf.
  destruct (readAsArrayBuffer file) as [typedarray|e]; simpl.
  2: { split; [by intros [? ?]|]. by intros (? & ? & ? & _). }
  destruct (getDocument typedarray) as [pdf|e] eqn:Hdoc; simpl.
  2: { split; [by intros [? ?]|]. intros (? & ? & [= <-] & Hd & _). congruence. }
  pose proof (parsePdf_loop_Ok pdf (numPages pdf) 0 "") as Hloop. simpl in Hloop.
  destruct (parsePdf_loop pdf (numPages pdf) 0 "") as [log [text|e]] eqn:Hl; simpl.
  - split.
    + intros _. exists typedarray, pdf. split; [done|]. split; [done|].
      intros k Hk. destruct Hloop as [Hloop _].
      destruct (Hloop (ex_intro _ log (ex_intro _ text eq_refl)) (k - 1)%nat) as [tc Htc];
        [lia|].
      exists tc. by replace k with (k - 1 + 1)%nat by lia.
    + intros _. destruct (negb _); simpl; by eexists.
  - split; [by intros [? ?]|].
    intros (ta & pdf' & [= <-] & Hd & Hall). rewrite Hdoc in Hd. injection Hd as <-.
    destruct Hloop as [_ Hloop].
    destruct Hloop as (log' & text' & Heq); [|done].
    intros j Hj. destruct (Hall (j + 1)%nat) as [tc Htc]; [lia|]. by exists tc.
Qed.

Lemma parsePdf_rejects_at_first_bad_page_witness :
  parsePdf (fun _ => Ok damaged_pdf) sample_file
  = ([ConsoleError "Erreur lors de l'extraction du texte:"], Throw "page 2 illisible").
Proof.
  apply (parsePdf_rejects_at_first_bad_page (fun _ => Ok damaged_pdf) sample_file []
           damaged_pdf 1 "page 2 illisible").
  - reflexivity.
  - reflexivity.
  - simpl. lia.
  - reflexivity.
  - intros j Hj. assert (j = 0%nat) as -> by lia. by eexists.
Defined.

Lemma parsePdf_resolves_with
    (getDocument : list Byte.byte -> result PDFDocument)
    (file : File) (typedarray : list Byte.byte)
    (pdf : PDFDocument) (pages : list TextContent) :
  readAsArrayBuffer file = Ok typedarray ->
  getDocument typedarray = Ok pdf ->
  pages_of pdf pages ->
  exists log, parsePdf getDocument file = (log, Ok (document_text pages)).
Proof.
  intros Hread Hdoc [Hlen Hpages].
  unfold parsePdf. rewrite Hread, Hdoc. simpl.
  rewrite <- Hlen, parsePdf_loop_text.
  - simpl. change ("" +:+ document_text pages) with (document_text pages).
    destruct (String.eqb (trim (document_text pages)) ""); by eexists.
  - intros j tc Hj. simpl. by apply Hpages.
Qed.

Lemma document_text_nonempty (pages : list TextContent) :
  pages <> [] -> document_text pages <> "".
Proof.
  destruct pages as [|page rest]; [done|]. intros _ Heq.
  apply (f_equal String.length) in Heq. simpl in Heq.
  unfold page_text in Heq. rewrite !string_app_length in Heq. simpl in Heq. lia.
Qed.

(** A successful upload sets the name and the text of the PDF and nothing
    else, and alerts nothing.  With at least one page the text is never
    empty, even when no text could be extracted (each page leaves its
    newline): the test [!pdfText] of the generation does not catch a PDF
    without text. *)
Theorem handlePdfUpload_sets_name_and_text
    (getDocument : list Byte.byte -> result PDFDocument)
    (file : File) (typedarray : list Byte.byte)
    (pdf : PDFDocument) (pages : list TextContent) (st : State) :
  readAsArrayBuffer file = Ok typedarray ->
  getDocument typedarray = Ok pdf ->
  pages_of pdf pages ->
  snd (handlePdfUpload getDocument (Some file) st)
  = setPdfText (document_text pages) (setPdfName (name file) st) /\
  (forall msg, Alert msg ∉ fst (handlePdfUpload getDocument (Some file) st)) /\
  ((0 < numPages pdf)%nat ->
   truthy (VStr (pdfText (snd (handlePdfUpload getDocument (Some file) st)))) = true).
Proof.
  intros Hread Hdoc Hpages.
  assert (Hlog : forall log text,
            parsePdf getDocument file = (log, Ok text) ->
            forall msg, Alert msg ∉ log).
  { unfold parsePdf. rewrite Hread, Hdoc. simpl.
    destruct (parsePdf_loop pdf (numPages pdf) 0 "") as [log0 [text0|e]] eqn:Hloop;
      simpl; [|intros ? ?; discriminate].
    assert (Hlog0 : log0 = []).
    { destruct Hpages as [Hlen Hp]. rewrite <- Hlen, parsePdf_loop_text in Hloop.
      - by injection Hloop as <- _.
      - intros j tc Hj. simpl. by apply Hp. }
    subst log0. intros log text. destruct (negb _); simpl; intros [= <- _] msg Hin.
    + by apply list_elem_of_singleton in Hin.
    + by apply elem_of_nil in Hin. }
  destruct (parsePdf_resolves_with getDocument file typedarray pdf pages) as [log Hparse];
    try done.
  unfold handlePdfUpload. rewrite Hparse. simpl. split; [done|]. split.
  - intros msg [Heq|Hin]%elem_of_cons; [done|].
    apply elem_of_app in Hin as [Hin|Hin%list_elem_of_singleton]; [|done].
    by eapply Hlog.
  - intros Hn. destruct (String.eqb_spec (document_text pages) ""); [|done].
    exfalso. eapply document_text_nonempty; [|done].
    destruct Hpages as [Hlen _]. destruct pages; [simpl in Hlen; lia|done].
Qed.

Lemma handlePdfUpload_sets_name_and_text_witness :
  snd (handlePdfUpload (fun _ => Ok sample_pdf) (Some sample_file) initial)
  = setPdfText (document_text [sample_page1; sample_page2])
      (setPdfName (name sample_file) initial) /\
  (forall msg, Alert msg ∉ fst (handlePdfUpload (fun _ => Ok sample_pdf)
                                  (Some sample_file) initial)) /\
  ((0 < numPages sample_pdf)%nat ->
   truthy (VStr (pdfText (snd (handlePdfUpload (fun _ => Ok sample_pdf)
                                 (Some sample_file) initial)))) = true).
Proof.
  apply (handlePdfUpload_sets_name_and_text (fun _ => Ok sample_pdf) sample_file []
           sample_pdf [sample_page1; sample_page2] initial).
  - reflexivity.
  - reflexivity.
  - split; [reflexivity|].
    intros [|[|i]] tc Hi; simpl in Hi; inversion Hi; subst; eexists; split; reflexivity.
Defined.

(** A scanned page: no text item, so the warning is logged, yet the text
    kept is the page's newline. *)
Example upload_of_pdf_without_text :
  handlePdfUpload
    (fun _ => Ok {| numPages := 1;
                    getPage := fun _ => Ok {| getTextContent := Ok {| items := [] |} |} |})
    (Some sample_file) initial
  = ([ConsoleLog; ConsoleWarn "Aucun texte extrait du PDF"; ConsoleLog],
     setPdfText newline (setPdfName "a.pdf" initial)).
Proof. reflexivity. Qed.

(** ** Generating a quiz *)

Section GenerateQuiz.

Variable JSON_parse : string -> result value.
Variable fetched : result Response.
Variable now : nat -> Z.

Local Arguments generateQuizWithGPT : simpl never.

Lemma generateQuiz_guard_passed (st : State) :
  gptToken st <> "" -> pdfText st <> "" ->
  generateQuiz JSON_parse fetched now st
  = match generateQuizWithGPT JSON_parse fetched now
            (gptToken st) (pdfText st) (quizParams st) with
    | (log, Ok quiz) =>
        match get quiz "questions", get quiz "title" with
        | Ok qs, Ok title =>
            (log, setLoading false
                    (setQuizTitle title
                       (setQuestions (array_elements qs) (setLoading true st))))
        | Throw e, _ => (log ++ [Alert e], setLoading false (setLoading true st))
        | Ok _, Throw e => (log ++ [Alert e], setLoading false (setLoading true st))
        end
    | (log, Throw e) => (log ++ [Alert e], setLoading false (setLoading true st))
    end.
Proof.
  intros Htok Htxt. unfold generateQuiz. simpl.
  apply String.eqb_neq in Htok as ->. apply String.eqb_neq in Htxt as ->. simpl.
  destruct (generateQuizWithGPT _ _ _ _ _ _) as [log [quiz|e]]; simpl; [|done].
  destruct (get quiz "questions") as [qs|e]; simpl; [|by rewrite app_nil_r].
  destruct (get quiz "title") as [title|e]; simpl; by rewrite app_nil_r.
Qed.

(** When the endpoint answers with a fenced JSON object that has a truthy
    title and an array of questions, the generation replaces the question
    list by the re-stamped questions (whatever the list held before) and the
    quiz title by the parsed title, ends with [loading] false, alerts
    nothing and leaves the token, the PDF and the parameters alone. *)
Theorem generateQuiz_replaces_the_quiz
    (st : State) (content jsonContent : string) (quiz title : value) (qs : list value) :
  gptToken st <> "" -> pdfText st <> "" ->
  replied fetched (VStr content) ->
  match_fence content = Some jsonContent ->
  JSON_parse jsonContent = Ok quiz ->
  get quiz "questions" = Ok (VArr qs) ->
  get quiz "title" = Ok title ->
  truthy title = true ->
  generateQuiz JSON_parse fetched now st
  = ([ConsoleLog],
     {| gptToken := gptToken st; pdfText := pdfText st; pdfName := pdfName st;
        quizParams := quizParams st; questions := stamp now qs;
        quizTitle := title; loading := false |}).
Proof.
  intros Htok Htxt Hreply Hm Hparse Hqs Htitle Htruthy.
  rewrite generateQuiz_guard_passed by done.
  rewrite (generateQuizWithGPT_replied _ _ _ _ _ _ content) by done.
  rewrite Hm. unfold quiz_of_json_cases. rewrite Hparse.
  destruct quiz as [| | | | | |props]; try discriminate.
  simpl in Hqs, Htitle. injection Hqs as Hqs. injection Htitle as Htitle.
  destruct (lookup_prop "questions" props) as [v|] eqn:Hq; [|discriminate].
  simpl in Hqs. subst v. rewrite Htitle, Htruthy. simpl.
  rewrite lookup_assign_eq, lookup_assign_ne by done. simpl. by rewrite Htitle.
Qed.

(** A generation is all or nothing: either the question list and the quiz
    title are both as before, or the list holds re-stamped questions and the
    title is a truthy value.  It never touches the token, the PDF or the
    parameters, and it never ends with [loading] true unless it returned at
    once, having changed nothing. *)
Theorem generateQuiz_all_or_nothing (st : State) :
  ((questions (snd (generateQuiz JSON_parse fetched now st)) = questions st /\
    quizTitle (snd (generateQuiz JSON_parse fetched now st)) = quizTitle st) \/
   (exists qs,
      questions (snd (generateQuiz JSON_parse fetched now st)) = stamp now qs /\
      truthy (quizTitle (snd (generateQuiz JSON_parse fetched now st))) = true)) /\
  gptToken (snd (generateQuiz JSON_parse fetched now st)) = gptToken st /\
  pdfText (snd (generateQuiz JSON_parse fetched now st)) = pdfText st /\
  pdfName (snd (generateQuiz JSON_parse fetched now st)) = pdfName st /\
  quizParams (snd (generateQuiz JSON_parse fetched now st)) = quizParams st /\
  (loading (snd (generateQuiz JSON_parse fetched now st)) = false \/
   snd (generateQuiz JSON_parse fetched now st) = st).
Proof.
  destruct (String.eqb_spec (gptToken st) "") as [Htok|Htok].
  { unfold generateQuiz. simpl. apply String.eqb_eq in Htok as ->. simpl. tauto. }
  destruct (String.eqb_spec (pdfText st) "") as [Htxt|Htxt].
  { unfold generateQuiz. simpl. apply String.eqb_eq in Htxt as ->.
    rewrite orb_true_r. simpl. tauto. }
  rewrite generateQuiz_guard_passed by done.
  destruct (generateQuizWithGPT JSON_parse fetched now (gptToken st) (pdfText st)
              (quizParams st)) as [log [quiz|err]] eqn:Hg; simpl; [|tauto].
  assert (Hquiz : snd (generateQuizWithGPT JSON_parse fetched now (gptToken st)
                         (pdfText st) (quizParams st)) = Ok quiz) by (by rewrite Hg).
  apply generateQuizWithGPT_Ok in Hquiz as [jsonContent Hquiz].
  apply quiz_of_json_cases_Ok in Hquiz as (props & qs & title & -> & Ht & Htruthy).
  simpl. rewrite lookup_assign_eq, lookup_assign_ne, Ht by done. simpl.
  split; [|tauto]. right. by exists qs.
Qed.

(** A response that is not 2xx is reported with its status, its body is
    never read, and the state is as before, [loading] being false. *)
Theorem generateQuiz_reports_http_error (st : State) (response : Response) :
  gptToken st <> "" -> pdfText st <> "" ->
  fetched = Ok response -> ok response = false ->
  generateQuiz JSON_parse fetched now st
  = ([Alert ("Erreur API GPT: " +:+ pretty (status response) +:+ " - "
               +:+ statusText response)],
     setLoading false st).
Proof.
  intros Htok Htxt Hfetched Hok.
  rewrite generateQuiz_guard_passed by done.
  unfold generateQuizWithGPT. simpl.
  apply String.eqb_neq in Htok as ->. rewrite Hfetched. simpl. rewrite Hok. simpl.
  done.
Qed.

End GenerateQuiz.

Lemma generateQuiz_replaces_the_quiz_witness :
  generateQuiz sample_JSON_parse (Ok (reply_with (VStr (in_fence json_quiz)))) sample_clock
    two_questions_ready
  = ([ConsoleLog],
     {| gptToken := "sk-test"; pdfText := "texte du PDF"; pdfName := "";
        quizParams := sample_params;
        questions := stamp sample_clock
                       [VObj [("id", VNum 1); ("title", VStr "Q")];
                        VObj [("id", VNum 1); ("title", VStr "R")]];
        quizTitle := VStr "Quiz"; loading := false |}).
Proof.
  apply (generateQuiz_replaces_the_quiz sample_JSON_parse
           (Ok (reply_with (VStr (in_fence json_quiz)))) sample_clock
           two_questions_ready (in_fence json_quiz) json_quiz
           (VObj [("title", VStr "Quiz");
                  ("questions", VArr [VObj [("id", VNum 1); ("title", VStr "Q")];
                                      VObj [("id", VNum 1); ("title", VStr "R")]])])
           (VStr "Quiz")).
  - discriminate.
  - discriminate.
  - do 5 eexists. repeat split; reflexivity.
  - reflexivity.
  - reflexivity.
  - reflexivity.
  - reflexivity.
  - reflexivity.
Defined.

Lemma generateQuiz_reports_http_error_witness :
  generateQuiz sample_JSON_parse
    (Ok {| ok := false; status := 401; statusText := "Unauthorized";
           json := Throw "unread" |})
    sample_clock ready
  = ([Alert "Erreur API GPT: 401 - Unauthorized"], setLoading false ready).
Proof.
  apply (generateQuiz_reports_http_error sample_JSON_parse
           (Ok {| ok := false; status := 401; statusText := "Unauthorized";
                  json := Throw "unread" |})
           sample_clock ready
           {| ok := false; status := 401; statusText := "Unauthorized";
              json := Throw "unread" |}); (discriminate || reflexivity).
Defined.

(** Re-stamping keeps the number and the order of the parsed questions and
    overwrites nothing but [id]: every other property of a parsed question
    object reads as before, whatever it is. *)
Theorem stamp_overwrites_only_id (now : nat -> Z) (qs : list value) :
  length (stamp now qs) = length qs /\
  forall (i : nat) (q : value),
    qs !! i = Some q ->
    exists q',
      stamp now qs !! i = Some q' /\
      get q' "id" = Ok (VStr (stamped_id i (now i))) /\
      forall props k, q = VObj props -> k <> "id" -> get q' k = get q k.
Proof.
  unfold stamp. split; [apply length_imap|].
  intros i q Hi. rewrite list_lookup_imap, Hi. simpl.
  eexists. split; [done|]. split; [apply get_assign_eq|].
  intros props k -> Hk. cbn [spread]. by apply get_assign_ne.
Qed.

(** ** The question-count field shows what it stores *)

Lemma pretty_N_char_digit (d : N) :
  (d < 10)%N -> Ascii.is_nat (pretty_N_char d) = Some (N.to_nat d).
Proof.
  intros Hd.
  assert (d = 0 \/ d = 1 \/ d = 2 \/ d = 3 \/ d = 4 \/ d = 5 \/ d = 6 \/ d = 7
          \/ d = 8 \/ d = 9)%N as Hcases by lia.
  repeat (destruct Hcases as [->|Hcases]; [reflexivity|]). by subst.
Qed.

Lemma leading_digits_pretty_N_go (x : N) (s : string) :
  fold_left (fun acc d => 10 * acc + Z.of_nat d) (leading_digits (pretty_N_go x s)) 0
  = fold_left (fun acc d => 10 * acc + Z.of_nat d) (leading_digits s) (Z.of_N x).
Proof.
  revert s. induction (N.lt_wf_0 x) as [x _ IH]; intros s.
  destruct (decide (x = 0)%N) as [->|Hx].
  - by rewrite pretty_N_go_0.
  - rewrite pretty_N_go_step by lia.
    rewrite IH by (apply N.div_lt; lia).
    simpl. rewrite pretty_N_char_digit by (apply N.mod_lt; lia). simpl.
    f_equal. rewrite N_nat_Z.
    pose proof (N.Div0.div_mod x 10) as Hdm. lia.
Qed.

Lemma pretty_N_go_digit_first (x : N) (s : string) :
  (0 < x)%N ->
  exists c rest d, pretty_N_go x s = String c rest /\ Ascii.is_nat c = Some d.
Proof.
  revert s. induction (N.lt_wf_0 x) as [x _ IH]; intros s Hx.
  rewrite pretty_N_go_step by lia.
  destruct (decide (x `div` 10 = 0)%N) as [->|Hdiv].
  - rewrite pretty_N_go_0. eexists _, _, _. split; [done|].
    apply pretty_N_char_digit. apply N.mod_lt. lia.
  - apply IH; [apply N.div_lt; lia|by apply N.neq_0_lt_0].
Qed.

Lemma leading_integer_digit_first (c : ascii) (rest : string) (d : nat) :
  Ascii.is_nat c = Some d ->
  leading_integer (String c rest)
  = Some (digits_value (leading_digits (String c rest))) /\
  leading_integer (String "-"%char (String c rest))
  = Some (- digits_value (leading_digits (String c rest))).
Proof.
  intros Hc.
  assert (Hlead : leading_digits (String c rest) = d :: leading_digits rest).
  { simpl. by rewrite Hc. }
  assert (Hwhite : is_white c = false /\ c <> "-"%char /\ c <> "+"%char).
  { destruct c as [[] [] [] [] [] [] [] []]; try discriminate Hc; by repeat split. }
  destruct Hwhite as (Hwhite & Hminus & Hplus).
  split.
  - unfold leading_integer, sign_and_digits. cbn [trimStart]. rewrite Hwhite.
    assert (Hsign : (match String c rest with
                     | String "-"%char r => (-1, r)
                     | String "+"%char r => (1, r)
                     | _ => (1, String c rest)
                     end) = (1, String c rest)).
    { destruct c as [[] [] [] [] [] [] [] []]; try reflexivity; congruence. }
    rewrite Hsign, Hlead. f_equal. lia.
  - unfold leading_integer, sign_and_digits. cbn [trimStart is_white]. cbv beta iota.
    rewrite Hlead. f_equal; lia.
Qed.

(** The decimal numeral of an integer reads back as that integer. *)
Lemma leading_integer_pretty (n : Z) : leading_integer (pretty n) = Some n.
Proof.
  destruct n as [|p|p]; [reflexivity| |].
  - change (pretty (Z.pos p)) with (pretty_N_go (N.pos p) "").
    destruct (pretty_N_go_digit_first (N.pos p) "") as (c & rest & d & Heq & Hc); [lia|].
    rewrite Heq. rewrite (proj1 (leading_integer_digit_first c rest d Hc)), <- Heq.
    f_equal. unfold digits_value. by rewrite leading_digits_pretty_N_go.
  - change (pretty (Z.neg p)) with ("-" +:+ pretty_N_go (N.pos p) "").
    destruct (pretty_N_go_digit_first (N.pos p) "") as (c & rest & d & Heq & Hc); [lia|].
    rewrite Heq. change ("-" +:+ String c rest) with (String "-"%char (String c rest)).
    rewrite (proj2 (leading_integer_digit_first c rest d Hc)), <- Heq.
    f_equal. unfold digits_value. rewrite leading_digits_pretty_N_go. simpl. lia.
Qed.

Lemma parseInt_pretty (approximates : bool) (n : Z) :
  Z.abs n < 2 ^ 53 -> parseInt approximates (pretty n) = Finite n.
Proof.
  intros Hsafe.
  pose proof (parseInt_leading_integer approximates (pretty n)) as Hparse.
  rewrite leading_integer_pretty in Hparse. destruct Hparse as [-> _].
  - by apply round_to_double_small.
  - left. change (10 ^ 20) with 100000000000000000000.
    change (2 ^ 53) with 9007199254740992 in Hsafe. lia.
Qed.

(** Below [2^53] in size, where a count is a double and is shown by its
    decimal numeral: typing the numeral of an integer stores that integer,
    except for ["0"], which stores 5; and when the handler has stored such
    an integer, typing its numeral again changes nothing. *)
Theorem question_count_reads_back_its_numeral
    (approximates : bool) (n : Z) (input : string) (st : State) :
  Z.abs n < 2 ^ 53 ->
  questionCount (quizParams (changeQuestionCount approximates (pretty n) st))
  = (if n =? 0 then Finite 5 else Finite n) /\
  (questionCount (quizParams (changeQuestionCount approximates input st)) = Finite n ->
   changeQuestionCount approximates (pretty n) (changeQuestionCount approximates input st)
   = changeQuestionCount approximates input st).
Proof.
  intros Hsafe.
  assert (Hstore : forall st0,
            changeQuestionCount approximates (pretty n) st0
            = setQuizParams {| difficulty := difficulty (quizParams st0);
                               questionCount := if n =? 0 then Finite 5 else Finite n |}
                            st0).
  { intros st0. unfold changeQuestionCount. rewrite parseInt_pretty by done.
    cbn [truthy_number]. by destruct (n =? 0). }
  split; [by rewrite Hstore|].
  intros Hstored. rewrite Hstore.
  assert (Hnz : n <> 0).
  { intros ->. revert Hstored. unfold changeQuestionCount.
    cbn [quizParams setQuizParams questionCount].
    destruct (parseInt approximates input) as [| |z]; cbn [truthy_number]; try done.
    destruct (Z.eqb_spec z 0); cbn [negb]; congruence. }
  destruct (Z.eqb_spec n 0); [done|].
  revert Hstored. unfold changeQuestionCount, setQuizParams.
  cbn [quizParams questionCount difficulty gptToken pdfText pdfName questions quizTitle loading].
  by intros ->.
Qed.

Lemma question_count_reads_back_its_numeral_witness :
  questionCount (quizParams (changeQuestionCount false (pretty 12) initial)) = Finite 12 /\
  changeQuestionCount false (pretty 12) (changeQuestionCount false " 12 questions" initial)
  = changeQuestionCount false " 12 questions" initial.
Proof.
  destruct (question_count_reads_back_its_numeral false 12 " 12 questions" initial)
    as [Hstore Hagain]; [reflexivity|].
  split; [exact Hstore|]. apply Hagain. reflexivity.
Defined.

(** ** Fencing and extracting *)

Lemma prefix_cons_ne (c x : ascii) (n s : string) :
  c <> x -> String.prefix (String c n) (String x s) = false.
Proof.
  intros Hne.
  change (String.prefix (String c n) (String x s))
    with (match ascii_dec c x with
          | left _ => String.prefix n s
          | right _ => false
          end).
  by destruct (ascii_dec c x).
Qed.

Lemma prefix_cons_eq (c : ascii) (n s : string) :
  String.prefix (String c n) (String c s) = String.prefix n s.
Proof.
  change (String.prefix (String c n) (String c s))
    with (match ascii_dec c c with
          | left _ => String.prefix n s
          | right _ => false
          end).
  by destruct (ascii_dec c c).
Qed.

Lemma search_open_after_plain (before rest : string) :
  no_backtick before ->
  search fence_open (before +:+ fence_open +:+ rest) = Some (before, rest).
Proof.
  induction before as [|x before IH]; intros Hplain; rewrite search_unfold.
  - change ("" +:+ fence_open +:+ rest) with (fence_open +:+ rest).
    by rewrite prefix_app, skip_all.
  - destruct Hplain as [Hx Hplain].
    change (String x before +:+ fence_open +:+ rest)
      with (String x (before +:+ fence_open +:+ rest)).
    assert (Hp : String.prefix fence_open (String x (before +:+ fence_open +:+ rest)) = false).
    { change fence_open with (String "`"%char ("``json" +:+ newline)).
      apply prefix_cons_ne. congruence. }
    by rewrite Hp, IH.
Qed.

Lemma search_close_after_plain (body rest : string) :
  no_backtick body ->
  search fence_close (body +:+ fence_close +:+ rest) = Some (body, rest).
Proof.
  induction body as [|x body IH]; intros Hplain; rewrite search_unfold.
  - change ("" +:+ fence_close +:+ rest) with (fence_close +:+ rest).
    by rewrite prefix_app, skip_all.
  - destruct Hplain as [Hx Hplain].
    change (String x body +:+ fence_close +:+ rest)
      with (String x (body +:+ fence_close +:+ rest)).
    assert (Hp : String.prefix fence_close (String x (body +:+ fence_close +:+ rest)) = false).
    { change fence_close with (String "010"%char (String "`"%char "``")).
      destruct (ascii_dec "010" x) as [<-|Hnl]; [|by apply prefix_cons_ne].
      rewrite prefix_cons_eq. destruct body as [|y body].
      - by apply prefix_cons_ne.
      - destruct Hplain as [Hy _]. apply prefix_cons_ne. congruence. }
    by rewrite Hp, IH.
Qed.

(** A JSON text without backtick, put between the two fences after an
    introduction without backtick, is extracted as it is, whatever
    follows the closing fence. *)
Theorem match_fence_extracts_what_was_fenced (intro jsonContent rest : string) :
  no_backtick intro -> no_backtick jsonContent ->
  match_fence (intro +:+ fence_open +:+ jsonContent +:+ fence_close +:+ rest)
  = Some jsonContent.
Proof.
  intros Hintro Hjson. unfold match_fence.
  by rewrite search_open_after_plain, search_close_after_plain.
Qed.

Lemma match_fence_extracts_what_was_fenced_witness :
  match_fence ("Voici le quiz :" +:+ newline +:+ fence_open +:+ json_quiz +:+ fence_close
                 +:+ newline +:+ "Bonne chance !")
  = Some json_quiz.
Proof.
  rewrite <- !string_app_assoc. rewrite string_app_assoc. rewrite !string_app_assoc.
  apply (match_fence_extracts_what_was_fenced ("Voici le quiz :" +:+ newline) json_quiz
           (newline +:+ "Bonne chance !")).
  - vm_compute. repeat split; discriminate.
  - vm_compute. repeat split; discriminate.
Defined.

(** ** The malformed-JSON error *)

(** Once a fenced text is extracted, the malformed-JSON error is thrown
    exactly when [JSON.parse] throws or when the parsed value has no array
    under [questions]; the parser's own message is logged over and lost. *)
Theorem malformed_iff_unparsable_or_no_questions
    (JSON_parse : string -> result value) (now : nat -> Z) (jsonContent : string) :
  snd (quiz_of_json JSON_parse now jsonContent) = Throw msg_malformed <->
  (exists e, JSON_parse jsonContent = Throw e) \/
  (exists quiz, JSON_parse jsonContent = Ok quiz /\
                forall qs, get quiz "questions" <> Ok (VArr qs)).
Proof.
  rewrite quiz_of_json_by_cases. unfold quiz_of_json_cases. split.
  - destruct (JSON_parse jsonContent) as [quiz|e]; [|intros _; left; by eexists].
    intros Hthrow. right. exists quiz. split; [done|]. intros qs Hqs.
    destruct quiz as [| | | | | |props]; try discriminate.
    simpl in Hqs. injection Hqs as Hqs.
    destruct (lookup_prop "questions" props) as [v|]; [|discriminate].
    simpl in Hqs. subst v.
    destruct (truthy _); discriminate.
  - intros [[e ->]|(quiz & -> & Hno)]; [done|].
    destruct quiz as [| | | | | |props]; try done.
    destruct (lookup_prop "questions" props) as [[| | | | |qs|]|] eqn:Hq; try done.
    exfalso. apply (Hno qs). simpl. by rewrite Hq.
Qed.

(** ** Identifiers of manual adds *)

Lemma pretty_Z_no_dash (n : Z) : 0 <= n -> no_dash (pretty n).
Proof.
  destruct n as [|p|p]; [by split| |lia]. intros _.
  change (pretty (Z.pos p)) with (pretty_N_go (N.pos p) "").
  by apply pretty_N_go_no_dash.
Qed.

(** Two manual adds are given the same identifier exactly when they read
    the same millisecond and draw the same nine characters of random
    number. *)
Theorem fresh_id_collides_iff (now now' : Z) (random36 random36' : string) :
  0 <= now -> 0 <= now' ->
  fresh_id now random36 = fresh_id now' random36' <->
  now = now' /\ substr random36 2 9 = substr random36' 2 9.
Proof.
  intros Hnow Hnow'. unfold fresh_id. split.
  - intros Heq%(inj (String.app "question-")).
    assert (Hp : pretty now = pretty now').
    { eapply dash_delimits; eauto using pretty_Z_no_dash. }
    rewrite Hp in Heq. apply (inj (String.app _)) in Heq.
    apply (inj (String.app _)) in Heq.
    split; [by apply (inj pretty)|done].
  - by intros [-> ->].
Qed.

Lemma fresh_id_collides_iff_witness :
  fresh_id 1700000000000 "0.4fzyo82mvyr" = fresh_id 1700000000000 "0.4fzyo82mvzz" <->
  1700000000000 = 1700000000000 /\
  substr "0.4fzyo82mvyr" 2 9 = substr "0.4fzyo82mvzz" 2 9.
Proof.
  apply (fresh_id_collides_iff 1700000000000 1700000000000
           "0.4fzyo82mvyr" "0.4fzyo82mvzz"); lia.
Defined.
